(** * member-api helper module: a shallow embedding and its properties

    The development follows the helper module of the member API: the
    role predicates ([hasAdminRole], [canManageMember]) and the search
    [checkIfExists], the data-access wrappers over the document store
    ([getEntityByHashKey], [getMemberByHandle], [update], [scan],
    [query]), the comma-separated list parser, the pagination headers
    ([getPageLink], [setResHeaders]) with the query string of the page
    links, the wrapping of the controllers ([wrapExpress],
    [autoWrapExpress]), the default configuration and the service clients
    built from it.

    JavaScript objects used as dictionaries are finite maps ([gmap]) where
    only lookups matter and association lists where the enumeration order
    of the keys is visible (the query string).  A database item is the map
    of its own fields together with its prototype, which an assignment to
    [__proto__] can replace.  Promises are modelled by the way they settle
    ([Outcome]). *)

From Stdlib Require Import ZArith String Ascii List Lia DecimalString.
From stdpp Require Import base option list gmap strings fin_maps.

Local Open Scope string_scope.
Local Open Scope Z_scope.

(** ** JavaScript values and strings *)

Module Js.

(** The values that flow through the helper.  Numbers are the integers
    (page numbers, counts, keys); [JFun] stands for a built-in function
    object. *)
#[warnings="-register-all"]
Inductive JsValue : Type :=
| JUndefined
| JNull
| JBool (b : bool)
| JNum (n : Z)
| JStr (s : string)
| JArr (elems : list JsValue)
| JObj (props : list (string * JsValue))
| JFun (name : string).

(** [ToBoolean]: what [if (v)], [v && ...] and [v || ...] test. *)
Definition truthy (v : JsValue) : bool :=
  match v with
  | JUndefined | JNull => false
  | JBool b => b
  | JNum n => negb (n =? 0)
  | JStr s => negb (String.eqb s "")
  | JArr _ | JObj _ | JFun _ => true
  end.

(** Decimal rendering of an integer, as [String(n)] and template literals
    print integers in the safe range. *)
Definition num_to_string (n : Z) : string :=
  NilZero.string_of_int (Z.to_int n).

(** [String(v)] / [`${v}`]. *)
Fixpoint to_string (v : JsValue) : string :=
  match v with
  | JUndefined => "undefined"
  | JNull => "null"
  | JBool true => "true"
  | JBool false => "false"
  | JNum n => num_to_string n
  | JStr s => s
  | JArr elems =>
      let elem_string (e : JsValue) : string :=
        match e with
        | JUndefined | JNull => ""
        | _ => to_string e
        end in
      String.concat "," (List.map elem_string elems)
  | JObj _ => "[object Object]"
  | JFun name => "function " +:+ name +:+ "() { [native code] }"
  end.

(** Strings are sequences of code units; the model covers the code units
    below 256 (the Latin-1 range), where [toLowerCase] and the white space
    test of [trim] act unit by unit. *)
Definition is_upper (c : ascii) : bool :=
  let n := N_of_ascii c in
  ((65 <=? n) && (n <=? 90) || (192 <=? n) && (n <=? 222) && negb (n =? 215))%N.

Definition lower_char (c : ascii) : ascii :=
  if is_upper c then ascii_of_N (N_of_ascii c + 32) else c.

(** [String.prototype.toLowerCase]. *)
Fixpoint toLowerCase (s : string) : string :=
  match s with
  | EmptyString => EmptyString
  | String c rest => String (lower_char c) (toLowerCase rest)
  end.

(** White space and line terminators below 256: TAB, LF, VT, FF, CR, SP
    and NBSP. *)
Definition is_space (c : ascii) : bool :=
  let n := N_of_ascii c in
  ((9 <=? n) && (n <=? 13) || (n =? 32) || (n =? 160))%N.

Fixpoint trim_start (s : string) : string :=
  match s with
  | EmptyString => EmptyString
  | String c rest => if is_space c then trim_start rest else s
  end.

(** Drops the white space at the end: a character is kept when it is not
    white space or when something is kept after it. *)
Fixpoint trim_end (s : string) : string :=
  match s with
  | EmptyString => EmptyString
  | String c rest =>
      match trim_end rest with
      | EmptyString => if is_space c then EmptyString else String c EmptyString
      | kept => String c kept
      end
  end.

(** [String.prototype.trim]. *)
Definition trim (s : string) : string := trim_end (trim_start s).

(** [s.split(',')]: the pieces between commas; never the empty list. *)
Fixpoint split_comma (s : string) : list string :=
  match s with
  | EmptyString => [EmptyString]
  | String c rest =>
      if Ascii.eqb c ","%char then EmptyString :: split_comma rest
      else match split_comma rest with
           | piece :: pieces => String c piece :: pieces
           | [] => [String c EmptyString]
           end
  end.

(** The properties every plain object inherits from [Object.prototype]. *)
Definition object_prototype : list (string * JsValue) :=
  [ ("constructor", JFun "Object");
    ("__defineGetter__", JFun "__defineGetter__");
    ("__defineSetter__", JFun "__defineSetter__");
    ("hasOwnProperty", JFun "hasOwnProperty");
    ("__lookupGetter__", JFun "__lookupGetter__");
    ("__lookupSetter__", JFun "__lookupSetter__");
    ("isPrototypeOf", JFun "isPrototypeOf");
    ("propertyIsEnumerable", JFun "propertyIsEnumerable");
    ("toString", JFun "toString");
    ("valueOf", JFun "valueOf");
    ("toLocaleString", JFun "toLocaleString") ].

Fixpoint assoc_get (k : string) (props : list (string * JsValue)) : option JsValue :=
  match props with
  | [] => None
  | (k', v) :: rest => if String.eqb k k' then Some v else assoc_get k rest
  end.

(** [obj[k]] on an object created by the literal [{}], whose own
    properties are [own]: an own property first, then the prototype;
    [__proto__] reads as the prototype object itself. *)
Definition plain_get (own : gmap string JsValue) (k : string) : JsValue :=
  match own !! k with
  | Some v => v
  | None =>
      if String.eqb k "__proto__" then JObj object_prototype
      else default JUndefined (assoc_get k object_prototype)
  end.

(** [obj[k] = v] on such an object, for a primitive [v]: an own data
    property is written, except that [__proto__] is a setter that ignores
    a primitive. *)
Definition plain_set (own : gmap string JsValue) (k : string) (v : JsValue)
  : gmap string JsValue :=
  if String.eqb k "__proto__" then own else <[k := v]> own.

End Js.

(** ** Settled promises and errors *)

Module Async.
Import Js.

(** The errors the helper raises or passes on.  [StoreError] carries the
    error object the store handed to the callback. *)
Inductive Error : Type :=
| StoreError (err : JsValue)
| NotFoundError (message : string)
| BadRequestError (message : string)
| TypeError.

(** How the promise returned by an [async] helper ends.  [CallbackThrows]
    is an exception raised inside the store's callback, after the executor
    has returned: the promise is then settled by nobody. *)
Inductive Outcome (A : Type) : Type :=
| Resolve (value : A)
| Reject (reason : Error)
| CallbackThrows (exn : Error).

Arguments Resolve {A} value.
Arguments Reject {A} reason.
Arguments CallbackThrows {A} exn.

(** A synchronous function either returns or throws. *)
Inductive Completion (A : Type) : Type :=
| Return (value : A)
| Throw (exn : Error).

Arguments Return {A} value.
Arguments Throw {A} exn.

End Async.

(** ** Authorization predicates *)

Module Auth.
Import Js.

(** The authenticated user attached to the request.  [roles] and [handle]
    may be absent (machine tokens carry neither). *)
Record Principal : Type := {
  roles : option (list string);
  isMachine : bool;
  handle : option string
}.

(** The part of a member profile the predicates read. *)
Record Member : Type := {
  handleLower : string
}.

(** The two nested loops of [hasAdminRole]: [ADMIN_ROLES] comes from the
    application constants and is a parameter here. *)
Definition hasAdminRole (ADMIN_ROLES : list string) (authUser : Principal) : bool :=
  match roles authUser with
  | None => false
  | Some rs =>
      existsb (fun role =>
        existsb (fun admin => String.eqb (toLowerCase role) (toLowerCase admin))
                ADMIN_ROLES) rs
  end.

(** [canManageMember] returns the value of its [&&]/[||] chain, which the
    callers test for truthiness. *)
Definition canManageMember (ADMIN_ROLES : list string)
  (currentUser : option Principal) (member : Member) : JsValue :=
  match currentUser with
  | None => JNull
  | Some user =>
      if isMachine user then JBool true
      else if hasAdminRole ADMIN_ROLES user then JBool true
      else match handle user with
           | None => JUndefined
           | Some h =>
               if truthy (JStr h)
               then JBool (String.eqb (toLowerCase h) (handleLower member))
               else JStr h
           end
  end.

(** Equality of two strings up to letter case. *)
Definition same_ignoring_case (a b : string) : Prop :=
  toLowerCase a = toLowerCase b.

(** Two strings that differ only in letter case: the same length, and at
    each place the same character or a letter and its lower-case form. *)
Inductive differ_in_case_only : string -> string -> Prop :=
| differ_nil : differ_in_case_only EmptyString EmptyString
| differ_cons (c d : ascii) (s t : string) :
    c = d \/ d = lower_char c \/ c = lower_char d ->
    differ_in_case_only s t ->
    differ_in_case_only (String c s) (String d t).

End Auth.

(** ** Data access over the document store *)

Module Store.
Import Js Async.

(** An entity is the record of its fields. *)
Abbreviation Entity := (gmap string JsValue).

(** What the store passes as [result] to the callback of [exec]: an array
    of entities that also carries a [count] property.  A plain array (as
    the literal [[]]) has no [count]. *)
Record ResultSet : Type := {
  items : list Entity;
  count : option Z
}.

(** The two arguments [(err, result)] of the callback of [exec]: either an
    error, or a result that may be null or undefined ([None]). *)
Inductive ExecResult : Type :=
| ExecErr (err : JsValue)
| ExecOk (result : option ResultSet).

(** A document-store model, by the calls the helper makes on it:
    [query(key).eq(value).exec], [query(params).exec] and
    [scan(params).exec], each answering from the store's contents. *)
Record Model : Type := {
  query_eq_exec : string -> JsValue -> ExecResult;
  query_exec : JsValue -> ExecResult;
  scan_exec : JsValue -> ExecResult
}.

(** The registry [models] of the application, by model name. *)
Abbreviation Models := (gmap string Model).

(** The empty array literal [[]]. *)
Definition empty_array : ResultSet := {| items := []; count := None |}.

(** [getEntityByHashKey].  A name that is no model makes the executor
    throw, which rejects the promise. *)
Definition getEntityByHashKey (models : Models)
  (modelName hashKeyName : string) (value : JsValue) : Outcome Entity :=
  match models !! modelName with
  | None => Reject TypeError
  | Some model =>
      match query_eq_exec model hashKeyName value with
      | ExecErr err => Reject (StoreError err)
      | ExecOk (Some {| items := first :: _ |}) => Resolve first
      | ExecOk _ =>
          Reject (NotFoundError
            ("Can not find " +:+ modelName +:+ " with " +:+ hashKeyName
             +:+ ": " +:+ to_string value))
      end
  end.

(** The string [`Member with handle: "${handle}" doesn't exist`]. *)
Definition member_not_found_message (handle : string) : string :=
  "Member with handle: " +:+ String (ascii_of_nat 34) handle
  +:+ String (ascii_of_nat 34) " doesn't exist".

(** [getMemberByHandle]: the lookup is made on [handleLower] with the
    handle in lower case. *)
Definition getMemberByHandle (models : Models) (handle : string) : Outcome Entity :=
  match models !! "Member" with
  | None => Reject TypeError
  | Some model =>
      match query_eq_exec model "handleLower" (JStr (toLowerCase handle)) with
      | ExecErr err => Reject (StoreError err)
      | ExecOk (Some {| items := first :: _ |}) => Resolve first
      | ExecOk _ => Reject (NotFoundError (member_not_found_message handle))
      end
  end.

(** [Object.keys(data)] and [data[key]] for a payload object. *)
Definition object_keys (data : Entity) : list string := (map_to_list data).*1.

Definition object_get (data : Entity) (key : string) : JsValue :=
  default JUndefined (data !! key).

(** What a database item inherits from.  An item loaded from the store
    inherits from the document class of its model, which has the method
    [save] and, through [Object.prototype], the accessor [__proto__].
    That accessor can put null or another object in the place of the
    prototype. *)
Inductive Prototype : Type :=
| DocumentPrototype
| NullPrototype
| ValuePrototype (v : JsValue).

(** A database item: the fields it has of its own, and its prototype. *)
Record Item : Type := {
  fields : Entity;
  prototype : Prototype
}.

(** An entity as the store loads it. *)
Definition loaded (entity : Entity) : Item :=
  {| fields := entity; prototype := DocumentPrototype |}.

(** Whether a lookup of [__proto__] along the prototype chain ends at the
    accessor of [Object.prototype]: not under a null prototype, and not
    when a plain object put on the chain has a field of that name of its
    own (as [JSON.parse] creates one). *)
Definition inherits_accessor (p : Prototype) : bool :=
  match p with
  | DocumentPrototype => true
  | NullPrototype => false
  | ValuePrototype (JObj props) =>
      match assoc_get "__proto__" props with
      | Some _ => false
      | None => true
      end
  | ValuePrototype _ => true
  end.

(** The values the accessor [__proto__] takes as a prototype: an object
    or null.  Any other value is ignored by it. *)
Definition swaps_prototype (v : JsValue) : bool :=
  match v with
  | JNull | JArr _ | JObj _ | JFun _ => true
  | _ => false
  end.

(** The prototype the accessor installs for such a value. *)
Definition installed (v : JsValue) : Prototype :=
  match v with
  | JNull => NullPrototype
  | _ => ValuePrototype v
  end.

(** [dbItem[key] = v].  A field of the item is written, except that
    [__proto__], when the item has no field of that name and inherits the
    accessor, goes to the accessor: an object or null replaces the
    prototype and no field is written. *)
Definition item_set (item : Item) (key : string) (v : JsValue) : Item :=
  let written := {| fields := <[key := v]> (fields item);
                    prototype := prototype item |} in
  if String.eqb key "__proto__" then
    match fields item !! "__proto__" with
    | Some _ => written
    | None =>
        if inherits_accessor (prototype item) then
          if swaps_prototype v then
            {| fields := fields item; prototype := installed v |}
          else item
        else written
    end
  else written.

(** The loop of [update]: [dbItem[key] = data[key]] for every key of
    [data], in the order of [Object.keys].  The keys are taken here in
    the order the map lists them; the item the loop leaves is the same in
    any order. *)
Definition assign_fields (dbItem : Item) (data : Entity) : Item :=
  foldl (fun item key => item_set item key (object_get data key)) dbItem
        (object_keys data).

(** What [dbItem.save] reads: a field of the item named [save] first,
    then the prototype chain.  [None] stands for the method of the
    document class; no other prototype has a [save] but an object that
    was given one. *)
Definition save_property (item : Item) : option JsValue :=
  match fields item !! "save" with
  | Some v => Some v
  | None =>
      match prototype item with
      | DocumentPrototype => None
      | NullPrototype => Some JUndefined
      | ValuePrototype (JObj props) => Some (default JUndefined (assoc_get "save" props))
      | ValuePrototype _ => Some JUndefined
      end
  end.

(** What an assignment to [__proto__] depends on and changes: the field
    of that name and the prototype. *)
Definition proto_state (item : Item) : option JsValue * Prototype :=
  (fields item !! "__proto__", prototype item).

(** [update].  [save] is the method of the document class: it answers
    with the error passed to its callback, if any.  When [dbItem.save] is
    something else after the loop, calling it inside the executor raises a
    [TypeError], which rejects the promise, unless it is a built-in
    function, whose call with the callback is [call].  The item is changed
    in place before [save] is called, so the caller sees the merged item
    whatever the outcome: the result pairs the item after the call with
    the promise. *)
Definition update (save : Item -> option JsValue)
  (call : string -> Item -> Outcome Item) (dbItem : Item) (data : Entity)
  : Item * Outcome Item :=
  let dbItem' := assign_fields dbItem data in
  (dbItem',
   match save_property dbItem' with
   | None =>
       match save dbItem' with
       | Some err => Reject (StoreError err)
       | None => Resolve dbItem'
       end
   | Some (JFun name) => call name dbItem'
   | Some _ => Reject TypeError
   end).

(** [scan]: [result.count === 0 ? [] : result].  Reading [count] of a
    null result throws inside the callback. *)
Definition scan (models : Models) (modelName : string) (scanParams : JsValue)
  : Outcome (option ResultSet) :=
  match models !! modelName with
  | None => Reject TypeError
  | Some model =>
      match scan_exec model scanParams with
      | ExecErr err => Reject (StoreError err)
      | ExecOk None => CallbackThrows TypeError
      | ExecOk (Some result) =>
          match count result with
          | Some 0 => Resolve (Some empty_array)
          | _ => Resolve (Some result)
          end
      end
  end.

(** [query]: [result || []]. *)
Definition query (models : Models) (modelName : string) (queryParams : JsValue)
  : Outcome (option ResultSet) :=
  match models !! modelName with
  | None => Reject TypeError
  | Some model =>
      match query_exec model queryParams with
      | ExecErr err => Reject (StoreError err)
      | ExecOk None => Resolve (Some empty_array)
      | ExecOk (Some result) => Resolve (Some result)
      end
  end.

(** A result as the store builds it: [count] is the number of items. *)
Definition well_formed (result : ResultSet) : Prop :=
  count result = Some (Z.of_nat (length (items result))).

(** The rows a callback result holds: none for a null result. *)
Definition rows (result : option ResultSet) : list Entity :=
  from_option items [] result.

(** Two promises end alike: in the same way with the same value or
    reason, the text of a [NotFoundError] apart. *)
Definition same_ending (o1 o2 : Outcome Entity) : Prop :=
  match o1, o2 with
  | Reject (NotFoundError _), Reject (NotFoundError _) => True
  | _, _ => o1 = o2
  end.

(** A store with one model whose every call finds the same two rows. *)
Definition two_rows : ResultSet :=
  {| items := [ {[ "userId" := JNum 7 ]}; {[ "userId" := JNum 8 ]} ];
     count := Some 2 |}.

Definition two_rows_model : Model :=
  {| query_eq_exec := fun _ _ => ExecOk (Some two_rows);
     query_exec := fun _ => ExecOk (Some two_rows);
     scan_exec := fun _ => ExecOk (Some two_rows) |}.

(** A store whose every call finds nothing. *)
Definition no_rows : ResultSet := {| items := []; count := Some 0 |}.

Definition no_rows_model : Model :=
  {| query_eq_exec := fun _ _ => ExecOk (Some no_rows);
     query_exec := fun _ => ExecOk (Some no_rows);
     scan_exec := fun _ => ExecOk (Some no_rows) |}.

End Store.

(** ** Comma-separated lists *)

Module Parse.
Import Js Async.

(** [_.includes(allowedValues, value)] on an array of strings. *)
Definition includes (allowedValues : list string) (value : string) : bool :=
  existsb (String.eqb value) allowedValues.

(** The body of the [_.forEach] callback.  [mapping] is the object [{}]
    that records the values seen so far, given by its own properties. *)
Definition check_value (allowedValues : option (list string))
  (mapping : gmap string JsValue) (value : string)
  : Completion (gmap string JsValue) :=
  if (String.length (trim value) =? 0)%nat then
    Throw (BadRequestError "Empty value.")
  else if match allowedValues with
          | Some allowed => negb (includes allowed value)
          | None => false
          end then
    Throw (BadRequestError ("Invalid value: " +:+ value))
  else if truthy (plain_get mapping value) then
    Throw (BadRequestError ("Duplicate values: " +:+ value))
  else
    Return (plain_set mapping value (JBool true)).

(** [_.forEach(values, ...)]: the callback runs on each value in turn and
    the first exception ends the loop. *)
Fixpoint check_values (allowedValues : option (list string))
  (mapping : gmap string JsValue) (values : list string) : Completion unit :=
  match values with
  | [] => Return tt
  | value :: rest =>
      match check_value allowedValues mapping value with
      | Throw exn => Throw exn
      | Return mapping' => check_values allowedValues mapping' rest
      end
  end.

(** [parseCommaSeparatedString].  [s] is [None] when the argument is
    absent; [allowedValues] is [None] when no list is given.  The result
    [None] is JavaScript's [null]. *)
Definition parseCommaSeparatedString (s : option string)
  (allowedValues : option (list string)) : Completion (option (list string)) :=
  match s with
  | None => Return None
  | Some str =>
      if truthy (JStr str) then
        let values := split_comma str in
        match check_values allowedValues ∅ values with
        | Throw exn => Throw exn
        | Return _ => Return (Some values)
        end
      else Return None
  end.

(** The names for which [mapping[name]] is truthy on a fresh [{}]. *)
Definition inherited (name : string) : bool :=
  truthy (plain_get ∅ name).

(** The three reasons the parser documents for refusing a value: it is
    empty once trimmed, it is not one of the allowed values, or it has
    been seen before. *)
Definition blank (value : string) : Prop :=
  String.length (trim value) = 0%nat.

Definition disallowed (allowedValues : option (list string)) (value : string) : Prop :=
  match allowedValues with
  | Some allowed => value ∉ allowed
  | None => False
  end.

(** What makes the callback throw on [value] when the own properties of
    [mapping] are the values seen so far. *)
Definition refused (allowedValues : option (list string))
  (mapping : gmap string JsValue) (value : string) : Prop :=
  blank value \/ disallowed allowedValues value \/ inherited value = true \/
  is_Some (mapping !! value).

End Parse.

(** ** Pagination headers *)

Module Pagination.
Import Js.

(** The parts of the HTTP request read by [getPageLink]; [query] is the
    parsed query string, an object listed in the order of its keys. *)
Record Request : Type := {
  protocol : string;
  host : string;
  baseUrl : string;
  path : string;
  query : list (string * JsValue)
}.

(** The operation result, without its items. *)
Record PageResult : Type := {
  page : Z;
  perPage : Z;
  total : Z
}.

(** The response, by the headers set on it. *)
Abbreviation Response := (gmap string string).

(** [res.set(field, value)]: the value is stored as a string. *)
Definition res_set (field : string) (value : JsValue) (res : Response) : Response :=
  <[field := to_string value]> res.

(** [Math.ceil(a / b)] for a divisor other than zero.  On integers in
    the safe range the floating-point quotient never rounds onto the
    integer below it, so the ceiling is the exact one. *)
Definition ceil_div (a b : Z) : Z := - ((- a) / b).

(** [obj[k] = v] on an object listed in key order: an existing key keeps
    its place, a new one goes last. *)
Fixpoint object_set (k : string) (v : JsValue) (obj : list (string * JsValue))
  : list (string * JsValue) :=
  match obj with
  | [] => [(k, v)]
  | (k', v') :: rest =>
      if String.eqb k k' then (k, v) :: rest else (k', v') :: object_set k v rest
  end.

(** [_.assignIn(target, source)]: every property of [source] is written
    to [target]. *)
Definition assignIn (target source : list (string * JsValue)) : list (string * JsValue) :=
  foldl (fun obj kv => object_set kv.1 kv.2 obj) target source.

(** A double-quoted word, as in [rel="first"]. *)
Definition quoted (word : string) : string :=
  String (ascii_of_nat 34) word +:+ String (ascii_of_nat 34) "".

Section WithQuerystring.

(** [querystring.stringify] of the platform. *)
Variable stringify : list (string * JsValue) -> string.

(** The query object of a page link: [_.assignIn({}, req.query, { page })]. *)
Definition page_query (req : Request) (page : Z) : list (string * JsValue) :=
  assignIn (assignIn [] (query req)) [("page", JNum page)].

(** [getPageLink]. *)
Definition getPageLink (req : Request) (page : Z) : string :=
  protocol req +:+ "://" +:+ host req +:+ baseUrl req +:+ path req +:+ "?"
  +:+ stringify (page_query req page).

(** [setResHeaders], as the sequence of its [res.set] calls. *)
Definition setResHeaders (req : Request) (res : Response) (result : PageResult)
  : Response :=
  let totalPages := ceil_div (total result) (perPage result) in
  let res :=
    if 1 <? page result
    then res_set "X-Prev-Page" (JNum (page result - 1)) res else res in
  let res :=
    if page result <? totalPages
    then res_set "X-Next-Page" (JNum (page result + 1)) res else res in
  let res := res_set "X-Page" (JNum (page result)) res in
  let res := res_set "X-Per-Page" (JNum (perPage result)) res in
  let res := res_set "X-Total" (JNum (total result)) res in
  let res := res_set "X-Total-Pages" (JNum totalPages) res in
  if 0 <? totalPages then
    let link :=
      "<" +:+ getPageLink req 1 +:+ ">; rel=" +:+ quoted "first" +:+ ", <"
      +:+ getPageLink req totalPages +:+ ">; rel=" +:+ quoted "last" in
    let link :=
      if 1 <? page result
      then link +:+ ", <" +:+ getPageLink req (page result - 1) +:+ ">; rel="
           +:+ quoted "prev"
      else link in
    let link :=
      if page result <? totalPages
      then link +:+ ", <" +:+ getPageLink req (page result + 1) +:+ ">; rel="
           +:+ quoted "next"
      else link in
    res_set "Link" (JStr link) res
  else res.

End WithQuerystring.

(** The [Link] header as a list of anchors, each a URL with its relation,
    and the text of such a list. *)
Definition render_anchor (anchor : string * string) : string :=
  "<" +:+ anchor.1 +:+ ">; rel=" +:+ quoted anchor.2.

Fixpoint render_link (anchors : list (string * string)) : string :=
  match anchors with
  | [] => ""
  | [anchor] => render_anchor anchor
  | anchor :: rest => render_anchor anchor +:+ ", " +:+ render_link rest
  end.

(** A request for the second page of a sorted member list, and a
    [stringify] that prints [key=value] pairs joined by [&]. *)
Definition members_request : Request :=
  {| protocol := "https"; host := "api.topcoder-dev.com"; baseUrl := "/v5";
     path := "/members";
     query := [("page", JStr "2"); ("sort", JStr "asc")] |}.

Definition plain_stringify (q : list (string * JsValue)) : string :=
  String.concat "&" (List.map (fun kv => kv.1 +:+ "=" +:+ to_string kv.2) q).

(** The anchors of the [Link] header as the documentation lists them:
    [first] and [last] always, [prev] after the first page and [next]
    before the last one. *)
Definition link_anchors (stringify : list (string * JsValue) -> string)
  (req : Request) (result : PageResult) : list (string * string) :=
  let totalPages := ceil_div (total result) (perPage result) in
  ([ (getPageLink stringify req 1, "first");
     (getPageLink stringify req totalPages, "last") ]
   ++ (if 1 <? page result
       then [ (getPageLink stringify req (page result - 1), "prev") ] else [])
   ++ (if page result <? totalPages
       then [ (getPageLink stringify req (page result + 1), "next") ] else []))%list.

End Pagination.

(** ** Searching a list of names *)

Module Util.
Import Js.

(** [s.split(sep)] for a separator of one character. *)
Fixpoint split_on (sep : ascii) (s : string) : list string :=
  match s with
  | EmptyString => [EmptyString]
  | String c rest =>
      if Ascii.eqb c sep then EmptyString :: split_on sep rest
      else match split_on sep rest with
           | piece :: pieces => String c piece :: pieces
           | [] => [String c EmptyString]
           end
  end.

(** What a helper outside the data layer throws: [new Error(message)],
    the [TypeError] of calling a method a value does not have or reading
    a property of [undefined], and the error of [config.get] on a setting
    that is not defined. *)
Inductive Raised : Type :=
| PlainError (message : string)
| TypeErrorRaised
| NotConfigured (path : string).

Inductive Result (A : Type) : Type :=
| Returns (value : A)
| Raises (exn : Raised).

Arguments Returns {A} value.
Arguments Raises {A} exn.

(** [values.map(s => s.toLowerCase())]: only a string has the method, so
    [None] stands for the [TypeError] raised at the first other value.
    Objects here are data records, without methods of their own. *)
Fixpoint lower_all (values : list JsValue) : option (list string) :=
  match values with
  | [] => Some []
  | JStr s :: rest =>
      match lower_all rest with
      | Some lowered => Some (toLowerCase s :: lowered)
      | None => None
      end
  | _ :: _ => None
  end.

(** [source.includes(term)] on an array of strings. *)
Definition array_includes (source : list string) (term : string) : bool :=
  existsb (String.eqb term) source.

(** The words of [term]: the pieces of a string between spaces, or the
    elements of an array, in lower case. *)
Definition terms_of (term : JsValue) : Result (list string) :=
  match term with
  | JStr t => Returns (split_on " "%char (toLowerCase t))
  | JArr ts =>
      match lower_all ts with
      | Some lowered => Returns lowered
      | None => Raises TypeErrorRaised
      end
  | _ => Raises (PlainError "Term argument should be either a string or an array")
  end.

(** [checkIfExists]. *)
Definition checkIfExists (source term : JsValue) : Result bool :=
  match source with
  | JArr elems =>
      match lower_all elems with
      | None => Raises TypeErrorRaised
      | Some source' =>
          match terms_of term with
          | Raises exn => Raises exn
          | Returns terms => Returns (existsb (array_includes source') terms)
          end
      end
  | _ => Raises (PlainError "Source argument should be an array")
  end.

(** An array of strings. *)
Definition strings (names : list string) : JsValue := JArr (List.map JStr names).

End Util.

(** ** Wrapping the handlers of a controller *)

Module Wrap.
Import Js Async.

(** What an Express function is observed by here: the arguments of its
    calls to [next], in order ([None] for a bare [next()]), and, for an
    [async] function, how its promise ends.  The request stands for the
    three arguments, which the wrapper passes on untouched. *)
Definition Middleware : Type := JsValue -> list (option Error).
Definition AsyncHandler : Type := JsValue -> list (option Error) * Outcome JsValue.

(** [wrapExpress]: [fn(req, res, next).catch(next)]. *)
Definition wrapExpress (fn : AsyncHandler) : Middleware :=
  fun req =>
    let '(calls, promise) := fn req in
    match promise with
    | Reject reason => (calls ++ [Some reason])%list
    | _ => calls
    end.

(** What a controller exports: arrays, functions ([async] or not) and
    objects of such. *)
#[warnings="-register-all"]
Inductive Exports : Type :=
| XArray (elems : list Exports)
| XAsyncFunction (fn : AsyncHandler)
| XFunction (fn : Middleware)
| XObject (props : list (string * Exports)).

(** [autoWrapExpress].  An array is mapped to a new array; the properties
    of an object are replaced one by one in the object itself, which is
    returned. *)
Fixpoint autoWrapExpress (obj : Exports) : Exports :=
  match obj with
  | XArray elems => XArray (List.map autoWrapExpress elems)
  | XAsyncFunction fn => XFunction (wrapExpress fn)
  | XFunction fn => XFunction fn
  | XObject props =>
      XObject (List.map (fun kv => let '(key, value) := kv in
                                   (key, autoWrapExpress value)) props)
  end.

(** The functions of an export that are still [async]. *)
Fixpoint async_count (obj : Exports) : nat :=
  match obj with
  | XArray elems => list_sum (List.map async_count elems)
  | XAsyncFunction _ => 1
  | XFunction _ => 0
  | XObject props =>
      list_sum (List.map (fun kv => let '(_, value) := kv in async_count value) props)
  end.

(** The outline of an export: its arrays and the keys of its objects,
    with a mark where a function stands. *)
#[warnings="-register-all"]
Inductive Outline : Type :=
| OArray (elems : list Outline)
| OFunction
| OObject (props : list (string * Outline)).

Fixpoint outline (obj : Exports) : Outline :=
  match obj with
  | XArray elems => OArray (List.map outline elems)
  | XAsyncFunction _ | XFunction _ => OFunction
  | XObject props =>
      OObject (List.map (fun kv => let '(key, value) := kv in (key, outline value)) props)
  end.

(** What the function at the end of a path does with [next] on a request:
    the path names array indices and object keys; [None] when it leads to
    no function.  An [async] function is run as Express runs it, without
    a handler for its promise. *)
Inductive Step : Type :=
| AtIndex (i : nat)
| AtKey (key : string).

Fixpoint assoc_export (key : string) (props : list (string * Exports)) : option Exports :=
  match props with
  | [] => None
  | (key', value) :: rest =>
      if String.eqb key key' then Some value else assoc_export key rest
  end.

Fixpoint export_at (path : list Step) (obj : Exports) : option Exports :=
  match path with
  | [] => Some obj
  | AtIndex i :: rest =>
      match obj with
      | XArray elems =>
          match nth_error elems i with
          | Some elem => export_at rest elem
          | None => None
          end
      | _ => None
      end
  | AtKey key :: rest =>
      match obj with
      | XObject props =>
          match assoc_export key props with
          | Some value => export_at rest value
          | None => None
          end
      | _ => None
      end
  end.

End Wrap.

(** ** The default configuration *)

Module Config.
Import Js Pagination Util.

(** [process.env]: the variables that are set, each with its string. *)
Abbreviation Env := (gmap string string).

(** [process.env.NAME]. *)
Definition env_value (env : Env) (name : string) : JsValue :=
  match env !! name with
  | Some s => JStr s
  | None => JUndefined
  end.

(** [a || b]. *)
Definition or_else (a b : JsValue) : JsValue := if truthy a then a else b.

(** [NAME.split(',')] as an array. *)
Definition split_list (s : string) : JsValue := strings (split_comma s).

Section WithNumber.

(** [Number(s)] of the platform. *)
Variable Number : string -> JsValue.

(** The object exported by the default configuration file. *)
Definition default_config (env : Env) : list (string * JsValue) :=
  [ ("LOG_LEVEL", or_else (env_value env "LOG_LEVEL") (JStr "debug"));
    ("PORT", or_else (env_value env "PORT") (JNum 3000));
    ("API_VERSION", or_else (env_value env "API_VERSION") (JStr "v5"));
    ("AUTH_SECRET", or_else (env_value env "AUTH_SECRET") (JStr "mysecret"));
    ("VALID_ISSUERS",
     or_else (env_value env "VALID_ISSUERS")
       (JStr ("[" +:+ quoted "https://api.topcoder-dev.com" +:+ ", "
              +:+ quoted "https://api.topcoder.com" +:+ ", "
              +:+ quoted "https://topcoder-dev.auth0.com/" +:+ "]")));
    ("AUTH0_URL", env_value env "AUTH0_URL");
    ("AUTH0_PROXY_SERVER_URL", env_value env "AUTH0_PROXY_SERVER_URL");
    ("AUTH0_AUDIENCE",
     or_else (env_value env "AUTH0_AUDIENCE") (JStr "https://www.topcoder-dev.com"));
    ("TOKEN_CACHE_TIME", env_value env "TOKEN_CACHE_TIME");
    ("AUTH0_CLIENT_ID", env_value env "AUTH0_CLIENT_ID");
    ("AUTH0_CLIENT_SECRET", env_value env "AUTH0_CLIENT_SECRET");
    ("BUSAPI_URL",
     or_else (env_value env "BUSAPI_URL") (JStr "https://api.topcoder-dev.com/v5"));
    ("KAFKA_ERROR_TOPIC",
     or_else (env_value env "KAFKA_ERROR_TOPIC") (JStr "common.error.reporting"));
    ("AMAZON", JObj
      [ ("AWS_ACCESS_KEY_ID",
         or_else (env_value env "AWS_ACCESS_KEY_ID") (JStr "FAKE_ACCESS_KEY"));
        ("AWS_SECRET_ACCESS_KEY",
         or_else (env_value env "AWS_SECRET_ACCESS_KEY") (JStr "FAKE_SECRET_ACCESS_KEY"));
        ("AWS_REGION", or_else (env_value env "AWS_REGION") (JStr "ap-northeast-1"));
        ("IS_LOCAL_DB",
         match env !! "IS_LOCAL_DB" with
         | Some s => if truthy (JStr s) then JBool (String.eqb s "true")
                     else JBool true
         | None => JBool true
         end);
        ("DYNAMODB_URL",
         or_else (env_value env "DYNAMODB_URL") (JStr "http://localhost:7777"));
        ("PHOTO_S3_BUCKET",
         or_else (env_value env "PHOTO_S3_BUCKET") (JStr "my-testing-bucket-12345"));
        ("S3_API_VERSION",
         or_else (env_value env "S3_API_VERSION") (JStr "2006-03-01")) ]);
    ("ES", JObj
      [ ("HOST", or_else (env_value env "ES_HOST") (JStr "localhost:9200"));
        ("API_VERSION", or_else (env_value env "ES_API_VERSION") (JStr "6.8"));
        ("ES_INDEX", or_else (env_value env "ES_INDEX") (JStr "member"));
        ("ES_TYPE", or_else (env_value env "ES_TYPE") (JStr "_doc"));
        ("MEMBER_TRAIT_ES_INDEX",
         or_else (env_value env "MEMBER_TRAIT_ES_INDEX") (JStr "member_trait"));
        ("MEMBER_TRAIT_ES_TYPE",
         or_else (env_value env "MEMBER_TRAIT_ES_TYPE") (JStr "_doc")) ]);
    ("HEALTH_CHECK_TIMEOUT",
     or_else (env_value env "HEALTH_CHECK_TIMEOUT") (JNum 3000));
    ("FILE_UPLOAD_SIZE_LIMIT",
     match env !! "FILE_UPLOAD_SIZE_LIMIT" with
     | Some s => if truthy (JStr s) then Number s else JNum (10 * 1024 * 1024)
     | None => JNum (10 * 1024 * 1024)
     end);
    ("ID_FIELDS",
     match env !! "ID_FIELDS" with
     | Some s => if truthy (JStr s) then split_list s
                 else strings ["email"; "addresses"]
     | None => strings ["email"; "addresses"]
     end);
    ("PHOTO_URL_TEMPLATE",
     or_else (env_value env "PHOTO_URL_TEMPLATE")
       (JStr "https://s3.amazonaws.com/some-bucket/<key>"));
    ("VERIFY_TOKEN_EXPIRATION",
     or_else (env_value env "VERIFY_TOKEN_EXPIRATION") (JNum 60));
    ("EMAIL_VERIFY_AGREE_URL",
     or_else (env_value env "EMAIL_VERIFY_AGREE_URL")
       (JStr "http://www.topcoder-dev.com/settings/account/changeEmail?action=verify&token=<emailVerifyToken>"));
    ("EMAIL_VERIFY_DISAGREE_URL",
     or_else (env_value env "EMAIL_VERIFY_DISAGREE_URL")
       (JStr "http://www.topcoder-dev.com/settings/account/changeEmail?action=cancel"));
    ("SCOPES", JObj
      [ ("MEMBERS", JObj
          [ ("READ", or_else (env_value env "SCOPE_MEMBERS_READ") (JStr "read:members"));
            ("UPDATE",
             or_else (env_value env "SCOPE_MEMBERS_UPDATE") (JStr "update:members"));
            ("ALL", or_else (env_value env "SCOPE_MEMBERS_ALL") (JStr "all:members")) ]) ]);
    ("SEARCH_MEMBERS_ADMIN_ONLY_FIELDS",
     match env !! "SEARCH_MEMBERS_ADMIN_ONLY_FIELDS" with
     | Some s => if truthy (JStr s) then split_list s
                 else strings ["firstName"; "lastName"]
     | None => strings ["firstName"; "lastName"]
     end) ].

End WithNumber.

(** [obj[key]] for a value of the configuration: [undefined] when the
    key is missing or the value is no object. *)
Definition member (obj : JsValue) (key : string) : JsValue :=
  match obj with
  | JObj props => default JUndefined (assoc_get key props)
  | _ => JUndefined
  end.

(** The value at the end of a path of keys. *)
Definition at_path (config : list (string * JsValue)) (path : list string) : JsValue :=
  foldl member (JObj config) path.

(** [config.get('A.B')]: the value at the dotted path; a value that is
    not defined is an error. *)
Definition config_get (config : list (string * JsValue)) (path : string)
  : Result JsValue :=
  match at_path config (split_on "."%char path) with
  | JUndefined => Raises (NotConfigured path)
  | value => Returns value
  end.

(** The dotted name of a key under a prefix. *)
Definition dotted (prefix key : string) : string :=
  match prefix with
  | EmptyString => key
  | _ => prefix +:+ "." +:+ key
  end.

(** The paths of the settings a value holds under a prefix: the path of
    the value itself, or the paths of the settings of its properties when
    it is an object. *)
Fixpoint setting_paths (prefix : string) (v : JsValue) : list string :=
  match v with
  | JObj props =>
      flat_map (fun kv => let '(key, value) := kv in
                          setting_paths (dotted prefix key) value) props
  | _ => [prefix]
  end.

(** All the settings of the default configuration.  The names do not
    depend on the environment; they are read off the object built in an
    empty one. *)
Definition settings : list string :=
  setting_paths "" (JObj (default_config (fun _ => JUndefined) ∅)).



End Config.

(** ** Service clients *)

Module Clients.
Import Js Pagination Util Config.

(** [awsConfig], as built when the helper module is loaded: the
    credentials are added when both are set.  Reading a setting of
    [config.AMAZON] raises a [TypeError] when there is no such section. *)
Definition awsConfig (config : list (string * JsValue))
  : Result (list (string * JsValue)) :=
  match member (JObj config) "AMAZON" with
  | JUndefined | JNull => Raises TypeErrorRaised
  | amazon =>
      let base := [ ("s3", member amazon "S3_API_VERSION");
                    ("region", member amazon "AWS_REGION") ] in
      if truthy (member amazon "AWS_ACCESS_KEY_ID")
         && truthy (member amazon "AWS_SECRET_ACCESS_KEY")
      then Returns
             (object_set "secretAccessKey" (member amazon "AWS_SECRET_ACCESS_KEY")
                (object_set "accessKeyId" (member amazon "AWS_ACCESS_KEY_ID") base))
      else Returns base
  end.

(** *** The search client *)

(** The rest of [s] after the prefix [p], if [s] starts with [p]. *)
Fixpoint strip_prefix (p s : string) : option string :=
  match p, s with
  | EmptyString, _ => Some s
  | String a p', String b s' => if Ascii.eqb a b then strip_prefix p' s' else None
  | String _ _, EmptyString => None
  end.

(** The parts of [s] before and after the first place where [pat]
    stands. *)
Fixpoint find_split (pat s : string) : option (string * string) :=
  match strip_prefix pat s with
  | Some after => Some (EmptyString, after)
  | None =>
      match s with
      | EmptyString => None
      | String c rest =>
          match find_split pat rest with
          | Some (before, after) => Some (String c before, after)
          | None => None
          end
      end
  end.

(** [/.*amazonaws.*/.test(host)]: the pattern is not anchored and [.*]
    may match nothing, so the test is whether the word occurs. *)
Definition is_aws_host (host : JsValue) : bool :=
  match find_split "amazonaws" (to_string host) with
  | Some _ => true
  | None => false
  end.

(** The options a search client is made with.  The managed service gets
    the connection class and the credentials of the environment besides
    its region. *)
Record EsOptions : Type := {
  es_apiVersion : JsValue;
  es_hosts : JsValue;
  es_amazonES : option JsValue
}.

Section WithElasticsearch.

(** The clients of the search library and its constructor
    [elasticsearch.Client], which raises on options it does not accept;
    and what loading the connection class [http-aws-es] raises, if
    anything. *)
Variable EsClient : Type.
Variable Client : EsOptions -> Result EsClient.
Variable http_aws_es : option Raised.

(** [getESClient]: the module variable [esClient] goes in and comes out
    with the client returned.  An error of the configuration or of the
    library leaves the variable as it was. *)
Definition getESClient (config : list (string * JsValue)) (esClient : option EsClient)
  : Result (EsClient * option EsClient) :=
  match esClient with
  | Some client => Returns (client, esClient)
  | None =>
      match config_get config "ES.HOST" with
      | Raises exn => Raises exn
      | Returns esHost =>
          if is_aws_host esHost then
            match config_get config "ES.API_VERSION" with
            | Raises exn => Raises exn
            | Returns version =>
                match http_aws_es with
                | Some exn => Raises exn
                | None =>
                    match config_get config "AMAZON.AWS_REGION" with
                    | Raises exn => Raises exn
                    | Returns region =>
                        match Client {| es_apiVersion := version; es_hosts := esHost;
                                        es_amazonES := Some region |} with
                        | Raises exn => Raises exn
                        | Returns client => Returns (client, Some client)
                        end
                    end
                end
            end
          else
            match config_get config "ES.API_VERSION" with
            | Raises exn => Raises exn
            | Returns version =>
                match Client {| es_apiVersion := version; es_hosts := esHost;
                                es_amazonES := None |} with
                | Raises exn => Raises exn
                | Returns client => Returns (client, Some client)
                end
            end
      end
  end.

End WithElasticsearch.

(** *** The bus client *)

(** The settings handed to the bus client. *)
Definition BUS_SETTINGS : list string :=
  [ "AUTH0_URL"; "AUTH0_AUDIENCE"; "TOKEN_CACHE_TIME"; "AUTH0_CLIENT_ID";
    "AUTH0_CLIENT_SECRET"; "BUSAPI_URL"; "KAFKA_ERROR_TOPIC";
    "AUTH0_PROXY_SERVER_URL" ].

(** [_.pick(object, keys)]: the properties the object has among [keys],
    in the order of [keys]. *)
Fixpoint pick (object : list (string * JsValue)) (keys : list string)
  : list (string * JsValue) :=
  match keys with
  | [] => []
  | key :: rest =>
      match assoc_get key object with
      | Some value => (key, value) :: pick object rest
      | None => pick object rest
      end
  end.

Section WithBusApi.

(** The clients of the bus library and its constructor. *)
Variable BusClient : Type.
Variable busApi : list (string * JsValue) -> BusClient.

(** [getBusApiClient], with the module variable [busApiClient] going in
    and coming out. *)
Definition getBusApiClient (config : list (string * JsValue))
  (busApiClient : option BusClient) : BusClient * option BusClient :=
  match busApiClient with
  | Some client => (client, busApiClient)
  | None =>
      let client := busApi (pick config BUS_SETTINGS) in
      (client, Some client)
  end.

End WithBusApi.

(** *** Photo upload *)

(** The text a replacement string stands for in
    [String.prototype.replace] with a string pattern: [$$] is a dollar,
    [$&] the match, [$`] and [$'] the text before and after it. *)
Fixpoint substitution (matched before after replacement : string) : string :=
  match replacement with
  | EmptyString => EmptyString
  | String c rest =>
      if Ascii.eqb c "$"%char then
        match rest with
        | String d rest' =>
            if Ascii.eqb d "$"%char then
              String "$"%char (substitution matched before after rest')
            else if Ascii.eqb d "&"%char then
              matched +:+ substitution matched before after rest'
            else if Ascii.eqb d "`"%char then
              before +:+ substitution matched before after rest'
            else if Ascii.eqb d "'"%char then
              after +:+ substitution matched before after rest'
            else String c (substitution matched before after rest)
        | EmptyString => String c EmptyString
        end
      else String c (substitution matched before after rest)
  end.

(** [s.replace(pattern, replacement)] for a string pattern: the first
    occurrence is replaced. *)
Definition replace (s pattern replacement : string) : string :=
  match find_split pattern s with
  | Some (before, after) =>
      before +:+ substitution pattern before after replacement +:+ after
  | None => s
  end.

(** The parameters of [s3.upload]. *)
Record UploadParams : Type := {
  Bucket : JsValue;
  Key : string;
  Body : JsValue;
  ContentType : string;
  ACL : string;
  Metadata : list (string * JsValue)
}.

(** How [uploadPhotoToS3] ends: with the URL of the photo, with the error
    of the upload, or with a [TypeError] raised on the configuration. *)
Inductive Uploaded : Type :=
| PhotoURL (url : string)
| UploadFailed (err : JsValue)
| UploadTypeError.

(** [uploadPhotoToS3].  [key] is the identifier drawn by [uuid()];
    [upload] is [s3.upload(params).promise()], answering with its error
    if it fails. *)
Definition uploadPhotoToS3 (config : list (string * JsValue)) (key : string)
  (upload : UploadParams -> option JsValue)
  (data : JsValue) (mimetype fileName : string) : Uploaded :=
  match member (JObj config) "AMAZON" with
  | JUndefined | JNull => UploadTypeError
  | amazon =>
      let params := {| Bucket := member amazon "PHOTO_S3_BUCKET"; Key := key;
                       Body := data; ContentType := mimetype; ACL := "public-read";
                       Metadata := [("fileName", JStr fileName)] |} in
      match upload params with
      | Some err => UploadFailed err
      | None =>
          match member (JObj config) "PHOTO_URL_TEMPLATE" with
          | JStr template => PhotoURL (replace template "<key>" key)
          | _ => UploadTypeError
          end
      end
  end.

End Clients.

(** ** The names of the pagination headers *)

Module Headers.

(** The headers [setResHeaders] may write. *)
Definition navigation_headers : list string :=
  ["X-Prev-Page"; "X-Next-Page"; "X-Page"; "X-Per-Page"; "X-Total";
   "X-Total-Pages"; "Link"].

End Headers.

(** ** The query string of a page link *)

Module Querystring.
Import Js Pagination Util.










(** *** Reading a query string *)













End Querystring.

(** * Properties *)

(** ** Strings *)

Module JsFacts.
Import Js.

Lemma String_eqb_true (a b : string) : String.eqb a b = true <-> a = b.
Proof. apply String.eqb_eq. Qed.

Lemma String_eqb_false (a b : string) : String.eqb a b = false <-> a <> b.
Proof. apply String.eqb_neq. Qed.

(** Lower-casing a character twice changes nothing more. *)
Lemma lower_char_idempotent (c : ascii) : lower_char (lower_char c) = lower_char c.
Proof. destruct c as [[] [] [] [] [] [] [] []]; reflexivity. Qed.

Lemma toLowerCase_idempotent (s : string) : toLowerCase (toLowerCase s) = toLowerCase s.
Proof.
  induction s as [|c rest IH]; simpl; [reflexivity|].
  now rewrite lower_char_idempotent, IH.
Qed.

Lemma toLowerCase_length (s : string) :
  String.length (toLowerCase s) = String.length s.
Proof. induction s as [|c rest IH]; simpl; congruence. Qed.

(** A string is falsy exactly when it is empty. *)
Lemma truthy_JStr (s : string) : truthy (JStr s) = true <-> s <> "".
Proof.
  simpl. rewrite negb_true_iff. apply String_eqb_false.
Qed.

Lemma existsb_In {A} (f : A -> bool) (l : list A) :
  existsb f l = true <-> exists x, In x l /\ f x = true.
Proof. apply existsb_exists. Qed.

Lemma upper_char_bound (c : ascii) :
  is_upper c = true -> (N_of_ascii c + 32 < 256)%N.
Proof.
  destruct c as [[] [] [] [] [] [] [] []]; intros H;
    try discriminate H; reflexivity.
Qed.

(** Two characters have the same lower-case form exactly when they are
    equal or one is the lower-case form of the other. *)
Lemma lower_char_eq (c d : ascii) :
  lower_char c = lower_char d <-> c = d \/ d = lower_char c \/ c = lower_char d.
Proof.
  split.
  - unfold lower_char.
    destruct (is_upper c) eqn:Hc, (is_upper d) eqn:Hd; intros Heq; auto.
    left. apply (f_equal N_of_ascii) in Heq.
    rewrite !N_ascii_embedding in Heq by now apply upper_char_bound.
    rewrite <- (ascii_N_embedding c), <- (ascii_N_embedding d).
    f_equal. lia.
  - intros [->|[->| ->]]; [reflexivity| |];
      now rewrite lower_char_idempotent.
Qed.

End JsFacts.

(** ** Authorization predicates *)

Module AuthFacts.
Import Js Auth JsFacts.

(** The loops of [hasAdminRole] find a pair of equal lower-cased names
    exactly when there is one. *)
Lemma hasAdminRole_true (ADMIN_ROLES : list string) (authUser : Principal) :
  hasAdminRole ADMIN_ROLES authUser = true <->
  exists rs role admin,
    roles authUser = Some rs /\ In role rs /\ In admin ADMIN_ROLES /\
    same_ignoring_case role admin.
Proof.
  unfold hasAdminRole, same_ignoring_case.
  destruct (roles authUser) as [rs|].
  - rewrite existsb_In. split.
    + intros (role & Hrole & Hex). apply existsb_In in Hex.
      destruct Hex as (admin & Hadmin & Heq). apply String_eqb_true in Heq.
      exists rs, role, admin. auto.
    + intros (rs' & role & admin & Hrs & Hrole & Hadmin & Heq).
      injection Hrs as <-. exists role. split; [assumption|].
      apply existsb_In. exists admin. split; [assumption|].
      now apply String_eqb_true.
  - split; [discriminate|]. intros (rs & _ & _ & Hrs & _). discriminate.
Qed.

(** Equality of the lower-case forms is equality up to letter case. *)
Lemma same_ignoring_case_letters (a b : string) :
  same_ignoring_case a b <-> differ_in_case_only a b.
Proof.
  unfold same_ignoring_case. split.
  - revert b. induction a as [|c a IH]; intros [|d b] Heq; simpl in Heq;
      try discriminate Heq.
    + constructor.
    + injection Heq as Hc Hrest. constructor; [|now apply IH].
      now apply lower_char_eq.
  - induction 1 as [|c d s t Hcd _ IH]; simpl; [reflexivity|].
    apply lower_char_eq in Hcd. now rewrite Hcd, IH.
Qed.

(** C9.  [hasAdminRole] answers true exactly when one of the principal's
    roles equals, letter case apart, one of the administrative roles; it
    answers false when the roles are absent or empty; and a principal whose
    only role is ["Admin"] has the admin role as soon as ["admin"] is one
    of the administrative roles. *)
Theorem hasAdminRole_case_insensitive (ADMIN_ROLES : list string) (authUser : Principal) :
  (hasAdminRole ADMIN_ROLES authUser = true <->
   exists rs role admin,
     roles authUser = Some rs /\ In role rs /\ In admin ADMIN_ROLES /\
     same_ignoring_case role admin) /\
  (forall machine h,
     hasAdminRole ADMIN_ROLES
       {| roles := None; isMachine := machine; handle := h |} = false /\
     hasAdminRole ADMIN_ROLES
       {| roles := Some []; isMachine := machine; handle := h |} = false) /\
  (forall before after machine h,
     hasAdminRole (before ++ "admin" :: after)
       {| roles := Some ["Admin"]; isMachine := machine; handle := h |} = true).
Proof.
  split; [apply hasAdminRole_true|]. split.
  - intros machine h. split; reflexivity.
  - intros before after machine h. apply hasAdminRole_true.
    exists ["Admin"], "Admin", "admin". simpl. repeat split; auto.
    apply in_or_app. right. now left.
Qed.

(** What the chain of [canManageMember] amounts to, for a present user. *)
Lemma canManageMember_truthy (ADMIN_ROLES : list string) (user : Principal)
  (member : Member) :
  truthy (canManageMember ADMIN_ROLES (Some user) member) = true <->
  isMachine user = true \/ hasAdminRole ADMIN_ROLES user = true \/
  exists h, handle user = Some h /\ h <> "" /\ toLowerCase h = handleLower member.
Proof.
  unfold canManageMember.
  destruct (isMachine user); [simpl; tauto|].
  destruct (hasAdminRole ADMIN_ROLES user); [simpl; tauto|].
  destruct (handle user) as [h|].
  - destruct (truthy (JStr h)) eqn:Hh.
    + apply truthy_JStr in Hh. simpl. rewrite String_eqb_true. split.
      * intros Heq. right. right. exists h. auto.
      * intros [?|[?|(h' & Hh' & _ & Heq)]]; try discriminate.
        now injection Hh' as <-.
    + rewrite Hh. split; [discriminate|].
      intros [?|[?|(h' & Hh' & Hne & _)]]; try discriminate.
      injection Hh' as <-. apply truthy_JStr in Hne. congruence.
  - simpl. split; [discriminate|].
    intros [?|[?|(h' & Hh' & _)]]; discriminate.
Qed.

(** C3, as the code has it.  When the member's handle is stored in lower
    case, [canManageMember] is truthy exactly when there is a principal
    and it is a machine, or has an admin role, or has a handle that is not
    empty and equals the member's handle letter case apart; without a
    principal the result is falsy. *)
Theorem canManageMember_iff (ADMIN_ROLES : list string)
  (currentUser : option Principal) (member : Member) :
  toLowerCase (handleLower member) = handleLower member ->
  (truthy (canManageMember ADMIN_ROLES currentUser member) = true <->
   exists user, currentUser = Some user /\
     (isMachine user = true \/ hasAdminRole ADMIN_ROLES user = true \/
      exists h, handle user = Some h /\ h <> "" /\
                same_ignoring_case h (handleLower member))) /\
  truthy (canManageMember ADMIN_ROLES None member) = false.
Proof.
  intros Hlower. split; [|reflexivity].
  unfold same_ignoring_case. rewrite Hlower.
  destruct currentUser as [user|].
  - rewrite canManageMember_truthy. split.
    + intros H. exists user. split; [reflexivity|exact H].
    + intros (user' & Huser & H). now injection Huser as <-.
  - simpl. split; [discriminate|]. intros (user & Huser & _). discriminate.
Qed.

(** The theorem at a principal who is the member, written in another
    letter case. *)
Lemma canManageMember_iff_witness :
  (truthy (canManageMember ["administrator"]
     (Some {| roles := Some ["Topcoder User"]; isMachine := false;
              handle := Some "TonyJ" |})
     {| handleLower := "tonyj" |}) = true <->
   exists user,
     Some {| roles := Some ["Topcoder User"]; isMachine := false;
             handle := Some "TonyJ" |} = Some user /\
     (isMachine user = true \/ hasAdminRole ["administrator"] user = true \/
      exists h, handle user = Some h /\ h <> "" /\
                same_ignoring_case h (handleLower {| handleLower := "tonyj" |}))) /\
  truthy (canManageMember ["administrator"] None {| handleLower := "tonyj" |}) = false.
Proof.
  apply (canManageMember_iff ["administrator"]
           (Some {| roles := Some ["Topcoder User"]; isMachine := false;
                    handle := Some "TonyJ" |})
           {| handleLower := "tonyj" |}).
  reflexivity.
Defined.

(** C3 as stated fails for the empty handle: a principal that is neither
    a machine nor an admin and whose handle is the empty string cannot
    manage the member whose stored handle is the empty string, although
    the two handles are equal. *)
Lemma canManageMember_empty_handle :
  let user := {| roles := Some []; isMachine := false; handle := Some "" |} in
  let member := {| handleLower := "" |} in
  toLowerCase (handleLower member) = handleLower member /\
  ~ (truthy (canManageMember ["administrator"; "admin"] (Some user) member) = true <->
     isMachine user = true \/
     hasAdminRole ["administrator"; "admin"] user = true \/
     exists h, handle user = Some h /\ same_ignoring_case h (handleLower member)).
Proof.
  simpl. split; [reflexivity|]. intros [_ H].
  assert (Hfalse : false = true); [|discriminate].
  apply H. right. right. exists "". split; reflexivity.
Qed.

End AuthFacts.

(** ** Data access *)

Module StoreFacts.
Import Js Async Auth Store JsFacts AuthFacts.

(** C1.  When the model exists and its query calls back without an error,
    [getEntityByHashKey] rejects with [NotFoundError] if the result holds
    no row, and otherwise resolves to the first row of the result. *)
Theorem getEntityByHashKey_first_or_not_found (models : Models)
  (modelName hashKeyName : string) (value : JsValue)
  (model : Model) (result : option ResultSet) :
  models !! modelName = Some model ->
  query_eq_exec model hashKeyName value = ExecOk result ->
  match rows result with
  | [] =>
      getEntityByHashKey models modelName hashKeyName value =
      Reject (NotFoundError
        ("Can not find " +:+ modelName +:+ " with " +:+ hashKeyName +:+ ": "
         +:+ to_string value))
  | first :: _ =>
      getEntityByHashKey models modelName hashKeyName value = Resolve first
  end.
Proof.
  intros Hmodel Hexec. unfold getEntityByHashKey. rewrite Hmodel, Hexec.
  destruct result as [[[|first rest] n]|]; reflexivity.
Qed.

Lemma getEntityByHashKey_first_or_not_found_witness :
  getEntityByHashKey {[ "Member" := two_rows_model ]} "Member" "userId" (JNum 7)
  = Resolve {[ "userId" := JNum 7 ]}.
Proof.
  exact (getEntityByHashKey_first_or_not_found
           {[ "Member" := two_rows_model ]} "Member" "userId" (JNum 7)
           two_rows_model (Some two_rows) eq_refl eq_refl).
Defined.

(** [getMemberByHandle] is settled by the answer to one lookup, the one
    on [handleLower] with the handle in lower case. *)
Lemma getMemberByHandle_lookup (models : Models) (handle : string) (model : Model) :
  models !! "Member" = Some model ->
  getMemberByHandle models handle =
  match query_eq_exec model "handleLower" (JStr (toLowerCase handle)) with
  | ExecErr err => Reject (StoreError err)
  | ExecOk result =>
      match rows result with
      | [] => Reject (NotFoundError (member_not_found_message handle))
      | first :: _ => Resolve first
      end
  end.
Proof.
  intros Hmodel. unfold getMemberByHandle. rewrite Hmodel.
  destruct (query_eq_exec model "handleLower" (JStr (toLowerCase handle)))
    as [err|[[[|first rest] n]|]]; reflexivity.
Qed.

(** C10.  Two handles that differ only in letter case make
    [getMemberByHandle] issue the same lookup (on [handleLower], with the
    handle in lower case), so on the same store both calls end alike; and
    a lookup that finds no row rejects with [NotFoundError]. *)
Theorem getMemberByHandle_case_insensitive (models : Models) (model : Model)
  (h1 h2 : string) :
  models !! "Member" = Some model ->
  differ_in_case_only h1 h2 ->
  JStr (toLowerCase h1) = JStr (toLowerCase h2) /\
  (forall h result,
     query_eq_exec model "handleLower" (JStr (toLowerCase h)) = ExecOk result ->
     match rows result with
     | [] => getMemberByHandle models h =
             Reject (NotFoundError (member_not_found_message h))
     | first :: _ => getMemberByHandle models h = Resolve first
     end) /\
  same_ending (getMemberByHandle models h1) (getMemberByHandle models h2).
Proof.
  intros Hmodel Hcase. apply same_ignoring_case_letters in Hcase.
  unfold same_ignoring_case in Hcase.
  split; [now rewrite Hcase|]. split.
  - intros h result Hexec.
    rewrite (getMemberByHandle_lookup models h model Hmodel), Hexec.
    destruct (rows result); reflexivity.
  - rewrite !(getMemberByHandle_lookup models _ model Hmodel), Hcase.
    destruct (query_eq_exec model "handleLower" (JStr (toLowerCase h2)))
      as [err|result]; [reflexivity|].
    destruct (rows result); simpl; auto.
Qed.

Lemma getMemberByHandle_case_insensitive_witness :
  JStr (toLowerCase "TonyJ") = JStr (toLowerCase "tonyj") /\
  (forall h result,
     query_eq_exec two_rows_model "handleLower" (JStr (toLowerCase h)) = ExecOk result ->
     match rows result with
     | [] => getMemberByHandle {[ "Member" := two_rows_model ]} h =
             Reject (NotFoundError (member_not_found_message h))
     | first :: _ => getMemberByHandle {[ "Member" := two_rows_model ]} h = Resolve first
     end) /\
  same_ending (getMemberByHandle {[ "Member" := two_rows_model ]} "TonyJ")
              (getMemberByHandle {[ "Member" := two_rows_model ]} "tonyj").
Proof.
  apply (getMemberByHandle_case_insensitive
           {[ "Member" := two_rows_model ]} two_rows_model "TonyJ" "tonyj").
  - reflexivity.
  - apply same_ignoring_case_letters. reflexivity.
Defined.

(** *** update *)

Lemma elem_of_object_keys (data : Entity) (key : string) :
  key ∈ object_keys data <-> is_Some (data !! key).
Proof.
  unfold object_keys. rewrite list_elem_of_fmap. split.
  - intros ([k v] & -> & Hin). apply elem_of_map_to_list in Hin. eauto.
  - intros [v Hv]. exists (key, v). split; [reflexivity|].
    now apply elem_of_map_to_list.
Qed.

Lemma object_keys_NoDup (data : Entity) : NoDup (object_keys data).
Proof. apply NoDup_fst_map_to_list. Qed.

(** An assignment to any name but [__proto__] writes a field. *)
Lemma item_set_field (item : Item) (key : string) (v : JsValue) :
  key <> "__proto__" ->
  item_set item key v =
  {| fields := <[key := v]> (fields item); prototype := prototype item |}.
Proof.
  intros Hne. unfold item_set. apply String_eqb_false in Hne. now rewrite Hne.
Qed.

(** An assignment touches no field but the one it names. *)
Lemma item_set_other_field (item : Item) (key k : string) (v : JsValue) :
  k <> key -> fields (item_set item key v) !! k = fields item !! k.
Proof.
  intros Hne. unfold item_set.
  destruct (String.eqb key "__proto__");
    [destruct (fields item !! "__proto__");
      [|destruct (inherits_accessor (prototype item));
        [destruct (swaps_prototype v)|]]|];
    simpl; try reflexivity; apply lookup_insert_ne; congruence.
Qed.

Lemma item_set_proto_state_other (item : Item) (key : string) (v : JsValue) :
  key <> "__proto__" -> proto_state (item_set item key v) = proto_state item.
Proof.
  intros Hne. rewrite item_set_field by assumption. unfold proto_state. simpl.
  now rewrite lookup_insert_ne.
Qed.

(** What an assignment to [__proto__] leaves is settled by the state it
    finds. *)
Lemma item_set_proto_state (i1 i2 : Item) (v : JsValue) :
  proto_state i1 = proto_state i2 ->
  proto_state (item_set i1 "__proto__" v) = proto_state (item_set i2 "__proto__" v).
Proof.
  destruct i1 as [f1 p1], i2 as [f2 p2]. unfold proto_state. cbn [fields prototype].
  intros [= Hf ->]. unfold item_set.
  change (String.eqb "__proto__" "__proto__") with true.
  cbv iota. cbn [fields prototype]. rewrite Hf.
  destruct (f2 !! "__proto__") as [own|] eqn:Hown.
  - cbn [fields prototype]. now rewrite !lookup_insert_eq.
  - destruct (inherits_accessor p2); [destruct (swaps_prototype v)|];
      cbn [fields prototype]; rewrite ?lookup_insert_eq, ?Hf, ?Hown; reflexivity.
Qed.

(** A value the accessor ignores, assigned to [__proto__], does not change
    what a later assignment to [__proto__] leaves. *)
Lemma item_set_proto_twice (item : Item) (v1 v2 : JsValue) :
  swaps_prototype v1 = false ->
  proto_state (item_set (item_set item "__proto__" v1) "__proto__" v2) =
  proto_state (item_set item "__proto__" v2).
Proof.
  intros Hv1. unfold proto_state, item_set.
  change (String.eqb "__proto__" "__proto__") with true. cbv iota.
  rewrite Hv1.
  destruct (fields item !! "__proto__") as [own|] eqn:Hown.
  - simpl. rewrite lookup_insert_eq. simpl. now rewrite !lookup_insert_eq.
  - destruct (inherits_accessor (prototype item)) eqn:Hacc.
    + now rewrite Hown, Hacc.
    + simpl. rewrite lookup_insert_eq. simpl. now rewrite !lookup_insert_eq.
Qed.



(** A field the item has is still there after an assignment to
    [__proto__]. *)
Lemma item_set_proto_keeps (item : Item) (v : JsValue) :
  is_Some (fields item !! "__proto__") ->
  is_Some (fields (item_set item "__proto__" v) !! "__proto__").
Proof.
  intros [own Hown]. unfold item_set.
  change (String.eqb "__proto__" "__proto__") with true. cbv iota.
  rewrite Hown. simpl. rewrite lookup_insert_eq. eauto.
Qed.

(** The loop over a list of keys writes the fields of those names, the
    name [__proto__] apart. *)
Lemma assign_loop_field (data : Entity) (keys : list string) (item : Item)
  (key : string) :
  key <> "__proto__" ->
  fields (foldl (fun item k => item_set item k (object_get data k)) item keys) !! key =
  if decide (key ∈ keys) then Some (object_get data key) else fields item !! key.
Proof.
  intros Hkey. revert item. induction keys as [|k keys IH]; intros item; cbn [foldl].
  - case_decide as Hin; [|reflexivity]. now apply elem_of_nil in Hin.
  - rewrite IH. destruct (decide (key ∈ keys)) as [Hin|Hnin].
    + rewrite decide_True; [reflexivity|]. apply elem_of_cons. now right.
    + destruct (decide (key = k)) as [->|Hne].
      * rewrite decide_True; [|apply elem_of_cons; now left].
        rewrite item_set_field by assumption. apply lookup_insert_eq.
      * rewrite decide_False.
        -- now apply item_set_other_field.
        -- intros Hin. apply elem_of_cons in Hin. tauto.
Qed.

Lemma assign_loop_proto_absent (data : Entity) (keys : list string) (item : Item) :
  "__proto__" ∉ keys ->
  proto_state (foldl (fun item k => item_set item k (object_get data k)) item keys)
  = proto_state item.
Proof.
  revert item. induction keys as [|k keys IH]; intros item Hnin; cbn [foldl];
    [reflexivity|].
  apply not_elem_of_cons in Hnin. destruct Hnin as [Hne Hnin].
  rewrite IH by assumption. apply item_set_proto_state_other. congruence.
Qed.

Lemma assign_loop_proto_present (data : Entity) (keys : list string) (item : Item) :
  NoDup keys -> "__proto__" ∈ keys ->
  proto_state (foldl (fun item k => item_set item k (object_get data k)) item keys)
  = proto_state (item_set item "__proto__" (object_get data "__proto__")).
Proof.
  revert item. induction keys as [|k keys IH]; intros item Hnodup Hin;
    [now apply elem_of_nil in Hin|].
  cbn [foldl]. apply NoDup_cons in Hnodup. destruct Hnodup as [Hk Hnodup].
  destruct (decide (k = "__proto__")) as [->|Hne].
  - now apply assign_loop_proto_absent.
  - apply elem_of_cons in Hin. destruct Hin as [Hin|Hin]; [congruence|].
    rewrite IH by assumption. apply item_set_proto_state.
    now apply item_set_proto_state_other.
Qed.

(** After the loop of [update], a field named in [data] other than
    [__proto__] has the value of [data], and any other one is as before. *)
Lemma assign_fields_lookup (dbItem : Item) (data : Entity) (key : string) :
  key <> "__proto__" ->
  fields (assign_fields dbItem data) !! key =
  match data !! key with
  | Some v => Some v
  | None => fields dbItem !! key
  end.
Proof.
  intros Hne. unfold assign_fields. rewrite assign_loop_field by assumption.
  destruct (data !! key) as [v|] eqn:Hkey.
  - rewrite decide_True; [|apply elem_of_object_keys; eauto].
    unfold object_get. now rewrite Hkey.
  - rewrite decide_False; [reflexivity|].
    rewrite elem_of_object_keys, Hkey. intros [v Hv]. discriminate.
Qed.

(** The loop treats [__proto__] as one assignment of the value [data]
    gives it, if any. *)
Lemma assign_fields_proto_state (dbItem : Item) (data : Entity) :
  proto_state (assign_fields dbItem data) =
  match data !! "__proto__" with
  | Some v => proto_state (item_set dbItem "__proto__" v)
  | None => proto_state dbItem
  end.
Proof.
  unfold assign_fields. destruct (data !! "__proto__") as [v|] eqn:Hkey.
  - rewrite assign_loop_proto_present.
    + unfold object_get. now rewrite Hkey.
    + apply object_keys_NoDup.
    + apply elem_of_object_keys. eauto.
  - apply assign_loop_proto_absent.
    rewrite elem_of_object_keys, Hkey. intros [v Hv]. discriminate.
Qed.

(** Two items with the same fields and the same prototype are one. *)
Lemma item_eq (i1 i2 : Item) :
  (forall key, key <> "__proto__" -> fields i1 !! key = fields i2 !! key) ->
  proto_state i1 = proto_state i2 ->
  i1 = i2.
Proof.
  destruct i1 as [f1 p1], i2 as [f2 p2]. unfold proto_state. simpl.
  intros Hfields [= Hproto ->]. f_equal. apply map_eq. intros key.
  destruct (decide (key = "__proto__")) as [->|Hne]; auto.
Qed.

(** The loop comes to the same item in whatever order it takes the keys
    of [data]. *)
Lemma assign_loop_any_order (data : Entity) (keys keys' : list string) (item : Item) :
  NoDup keys -> keys ≡ₚ keys' ->
  foldl (fun item k => item_set item k (object_get data k)) item keys =
  foldl (fun item k => item_set item k (object_get data k)) item keys'.
Proof.
  intros Hnodup Hperm.
  assert (Hnodup' : NoDup keys') by now rewrite <- Hperm.
  apply item_eq.
  - intros key Hkey. rewrite !assign_loop_field by assumption.
    destruct (decide (key ∈ keys)) as [Hin|Hnin].
    + rewrite decide_True; [reflexivity|]. now rewrite <- Hperm.
    + rewrite decide_False; [reflexivity|]. now rewrite <- Hperm.
  - destruct (decide ("__proto__" ∈ keys)) as [Hin|Hnin].
    + rewrite !assign_loop_proto_present; try assumption; [reflexivity|].
      now rewrite <- Hperm.
    + rewrite !assign_loop_proto_absent; try assumption; [reflexivity|].
      now rewrite <- Hperm.
Qed.

Lemma assign_fields_empty (dbItem : Item) : assign_fields dbItem ∅ = dbItem.
Proof. unfold assign_fields, object_keys. now rewrite map_to_list_empty. Qed.







(** *** scan and query *)

(** C8.  Neither [scan] nor [query] ever resolves to null or undefined.
    When the store calls back without an error and with a result whose
    [count] is the number of its items, both resolve to a sequence with
    the items of that result: the empty sequence when there is no match,
    and the store's own result when there is one.  [query] also turns a
    null result into the empty sequence. *)
Theorem scan_query_sequence (models : Models) (modelName : string)
  (model : Model) (params : JsValue) (result : ResultSet) :
  models !! modelName = Some model ->
  well_formed result ->
  (forall ms name ps,
     scan ms name ps <> Resolve None /\ query ms name ps <> Resolve None) /\
  (scan_exec model params = ExecOk (Some result) ->
     exists found, scan models modelName params = Resolve (Some found) /\
       items found = items result /\
       (items result = [] -> found = empty_array) /\
       (items result <> [] -> found = result)) /\
  (query_exec model params = ExecOk (Some result) ->
     query models modelName params = Resolve (Some result)) /\
  (query_exec model params = ExecOk None ->
     query models modelName params = Resolve (Some empty_array)).
Proof.
  intros Hmodel Hwf. split; [|split; [|split]].
  - intros ms name ps. split.
    + unfold scan. destruct (ms !! name) as [m|]; [|discriminate].
      destruct (scan_exec m ps) as [err|[r|]]; try discriminate.
      destruct (count r) as [[| |]|]; discriminate.
    + unfold query. destruct (ms !! name) as [m|]; [|discriminate].
      destruct (query_exec m ps) as [err|[r|]]; discriminate.
  - intros Hscan. unfold scan. rewrite Hmodel, Hscan.
    unfold well_formed in Hwf. rewrite Hwf.
    destruct result as [[|first rest] n]; simpl in *.
    + exists empty_array. repeat split; auto. congruence.
    + exists {| items := first :: rest; count := n |}. repeat split; auto.
      discriminate.
  - intros Hquery. unfold query. now rewrite Hmodel, Hquery.
  - intros Hnull. unfold query. now rewrite Hmodel, Hnull.
Qed.

(** The theorem on a store that finds two rows. *)
Lemma scan_query_sequence_witness :
  scan {[ "Member" := two_rows_model ]} "Member" JNull = Resolve (Some two_rows) /\
  query {[ "Member" := two_rows_model ]} "Member" JNull = Resolve (Some two_rows).
Proof.
  assert (Hmodel : ({[ "Member" := two_rows_model ]} : Models) !! "Member"
                   = Some two_rows_model) by reflexivity.
  assert (Hwf : well_formed two_rows) by reflexivity.
  destruct (scan_query_sequence {[ "Member" := two_rows_model ]} "Member"
              two_rows_model JNull two_rows Hmodel Hwf)
    as (_ & Hscan & Hquery & _).
  split; [|exact (Hquery eq_refl)].
  destruct (Hscan eq_refl) as (found & Hfound & _ & _ & Hsame).
  rewrite Hfound. f_equal. f_equal. apply Hsame. discriminate.
Defined.

(** No match: the store's empty result, with [count] 0, comes back as an
    empty sequence from both. *)
Example scan_query_no_match :
  scan {[ "Member" := no_rows_model ]} "Member" JNull = Resolve (Some empty_array) /\
  from_option items [] (Some no_rows) = [] /\
  query {[ "Member" := no_rows_model ]} "Member" JNull = Resolve (Some no_rows).
Proof. repeat split. Qed.

(** A null result: [query] answers the empty sequence, [scan] raises
    while reading [count] and its promise is left unsettled. *)
Example scan_query_null_result :
  let null_model :=
    {| query_eq_exec := fun _ _ => ExecOk None;
       query_exec := fun _ => ExecOk None;
       scan_exec := fun _ => ExecOk None |} in
  query {[ "Member" := null_model ]} "Member" JNull = Resolve (Some empty_array) /\
  scan {[ "Member" := null_model ]} "Member" JNull = CallbackThrows TypeError.
Proof. split; reflexivity. Qed.

End StoreFacts.

(** ** Comma-separated lists *)

Module ParseFacts.
Import Js Async Parse JsFacts.

Lemma includes_true (allowed : list string) (value : string) :
  includes allowed value = true <-> value ∈ allowed.
Proof.
  unfold includes. rewrite existsb_In, list_elem_of_In. split.
  - intros (x & Hin & Heq). apply String_eqb_true in Heq. now subst.
  - intros Hin. exists value. split; [assumption|]. now apply String_eqb_true.
Qed.

(** Reading [mapping[value]]: truthy for a value seen before and for a
    name that every object inherits. *)
Lemma plain_get_truthy (mapping : gmap string JsValue) (value : string) :
  (forall k x, mapping !! k = Some x -> truthy x = true) ->
  truthy (plain_get mapping value) = true <->
  is_Some (mapping !! value) \/ inherited value = true.
Proof.
  intros Hown. unfold inherited, plain_get. rewrite lookup_empty.
  destruct (mapping !! value) as [x|] eqn:Hvalue.
  - split; [eauto|]. intros _. now apply (Hown value).
  - split; [now right|]. intros [[x Hx]|H]; [discriminate|exact H].
Qed.

Lemma plain_set_fresh (mapping : gmap string JsValue) (value : string) (x : JsValue) :
  inherited value = false -> plain_set mapping value x = <[value := x]> mapping.
Proof.
  intros Hfresh. unfold plain_set.
  destruct (String.eqb value "__proto__") eqn:Heq; [|reflexivity].
  apply String_eqb_true in Heq. subst value. discriminate.
Qed.

(** One run of the callback: it throws a [BadRequestError] on a refused
    value and records any other value as seen. *)
Lemma check_value_spec (allowed : option (list string))
  (mapping : gmap string JsValue) (value : string) :
  (forall k x, mapping !! k = Some x -> truthy x = true) ->
  match check_value allowed mapping value with
  | Throw exn => (exists msg, exn = BadRequestError msg) /\ refused allowed mapping value
  | Return mapping' =>
      ~ refused allowed mapping value /\ mapping' = <[value := JBool true]> mapping
  end.
Proof.
  intros Hown. unfold check_value, refused, blank.
  destruct (Nat.eqb_spec (String.length (trim value)) 0) as [Hblank|Hblank].
  { split; eauto. }
  assert (Hallowed :
    (match allowed with Some l => negb (includes l value) | None => false end) = true
    <-> disallowed allowed value).
  { unfold disallowed. destruct allowed as [l|]; [|split; [discriminate|tauto]].
    rewrite negb_true_iff, <- not_true_iff_false. now rewrite includes_true. }
  destruct (match allowed with Some l => negb (includes l value) | None => false end).
  { split; eauto. right. left. now apply Hallowed. }
  pose proof (plain_get_truthy mapping value Hown) as Hseen.
  destruct (truthy (plain_get mapping value)).
  { split; eauto. destruct Hseen as [Hseen _]. destruct (Hseen eq_refl); auto. }
  assert (Hfresh : inherited value = false).
  { destruct (inherited value); [|reflexivity].
    destruct Hseen as [_ Hseen]. symmetry. apply Hseen. now right. }
  split; [|now apply plain_set_fresh].
  intros [H|[H|[H|H]]].
  - contradiction.
  - apply Hallowed in H. discriminate.
  - congruence.
  - destruct Hseen as [_ Hseen]. discriminate Hseen. now left.
Qed.

(** The whole loop: it throws exactly when some value is refused or the
    list holds a value twice. *)
Lemma check_values_spec (allowed : option (list string)) (values : list string) :
  forall mapping : gmap string JsValue,
  (forall k x, mapping !! k = Some x -> truthy x = true) ->
  match check_values allowed mapping values with
  | Throw exn =>
      (exists msg, exn = BadRequestError msg) /\
      ((exists value, value ∈ values /\ refused allowed mapping value) \/ ~ NoDup values)
  | Return _ =>
      (forall value, value ∈ values -> ~ refused allowed mapping value) /\ NoDup values
  end.
Proof.
  induction values as [|value rest IH]; intros mapping Hown; simpl.
  { split; [|constructor]. intros value Hin. now apply elem_of_nil in Hin. }
  pose proof (check_value_spec allowed mapping value Hown) as Hstep.
  destruct (check_value allowed mapping value) as [mapping'|exn].
  2:{ destruct Hstep as [Hexn Href]. split; [assumption|].
      left. exists value. split; [apply elem_of_cons; now left|assumption]. }
  destruct Hstep as [Hok ->].
  assert (Hown' : forall k x,
            <[value := JBool true]> mapping !! k = Some x -> truthy x = true).
  { intros k x. rewrite lookup_insert. case_decide; [|apply Hown].
    intros [= <-]. reflexivity. }
  assert (Hmore : forall w, refused allowed (<[value := JBool true]> mapping) w <->
                            refused allowed mapping w \/ w = value).
  { intros w. unfold refused. rewrite lookup_insert. case_decide as Hw.
    - subst w. split; [now right|]. intros _. right. right. right. eauto.
    - split; [tauto|]. intros [H|H]; [exact H|congruence]. }
  specialize (IH _ Hown').
  destruct (check_values allowed (<[value := JBool true]> mapping) rest) as [[]|exn].
  - destruct IH as [Hrest Hnodup]. split.
    + intros w Hw. apply elem_of_cons in Hw. destruct Hw as [->|Hw]; [assumption|].
      intros Href. apply (Hrest w Hw). apply Hmore. now left.
    + apply NoDup_cons. split; [|assumption].
      intros Hin. apply (Hrest value Hin). apply Hmore. now right.
  - destruct IH as [Hexn [(w & Hw & Href)|Hdup]]; (split; [assumption|]).
    + apply Hmore in Href. destruct Href as [Href| ->].
      * left. exists w. split; [apply elem_of_cons; now right|assumption].
      * right. intros Hnodup. apply NoDup_cons in Hnodup. tauto.
    + right. intros Hnodup. apply NoDup_cons in Hnodup. tauto.
Qed.

(** What [parseCommaSeparatedString] does on every input: null for an
    absent or empty string; otherwise a [BadRequestError] when a split
    element is blank, is not allowed, occurs twice or is the name of an
    inherited property, and the split elements when there is no such
    element. *)
Theorem parseCommaSeparatedString_behaviour (s : option string)
  (allowed : option (list string)) :
  match parseCommaSeparatedString s allowed with
  | Return None => s = None \/ s = Some ""
  | Return (Some values) =>
      exists str, s = Some str /\ str <> "" /\ values = split_comma str /\
        NoDup values /\
        forall value, value ∈ values ->
          ~ blank value /\ ~ disallowed allowed value /\ inherited value = false
  | Throw exn =>
      exists str msg, s = Some str /\ str <> "" /\ exn = BadRequestError msg /\
        ((exists value, value ∈ split_comma str /\
            (blank value \/ disallowed allowed value \/ inherited value = true)) \/
         ~ NoDup (split_comma str))
  end.
Proof.
  unfold parseCommaSeparatedString. destruct s as [str|]; [|now left].
  destruct (truthy (JStr str)) eqn:Hstr.
  2:{ right. f_equal. destruct (String.eqb_spec str "") as [Hempty|Hne];
        [assumption|].
      apply truthy_JStr in Hne. congruence. }
  apply truthy_JStr in Hstr.
  pose proof (check_values_spec allowed (split_comma str) ∅) as Hloop.
  destruct (check_values allowed ∅ (split_comma str)) as [[]|exn].
  - destruct Hloop as [Hall Hnodup]; [intros k x; now rewrite lookup_empty|].
    exists str. repeat split; try assumption.
    + intros Hb. apply (Hall value H). now left.
    + intros Hd. apply (Hall value H). right. now left.
    + destruct (inherited value) eqn:Hi; [|reflexivity].
      exfalso. apply (Hall value H). right. right. now left.
  - destruct Hloop as [[msg ->] Hbad]; [intros k x; now rewrite lookup_empty|].
    exists str, msg. repeat split; try assumption.
    destruct Hbad as [(value & Hin & Href)|Hdup]; [|now right].
    left. exists value. split; [assumption|].
    unfold refused in Href. rewrite lookup_empty in Href.
    destruct Href as [H|[H|[H|[x H]]]]; auto. discriminate.
Qed.

(** C2 at the input ["constructor"] without allowed values: the single
    element is not blank, nothing is disallowed and no element occurs
    twice, and yet the parser throws a [BadRequestError] that reports a
    duplicate, because [mapping["constructor"]] is inherited by the fresh
    object. *)
Theorem parseCommaSeparatedString_inherited_name :
  split_comma "constructor" = ["constructor"] /\
  trim "constructor" = "constructor" /\
  NoDup (split_comma "constructor") /\
  parseCommaSeparatedString (Some "constructor") None =
  Throw (BadRequestError "Duplicate values: constructor").
Proof.
  repeat split. simpl. apply NoDup_singleton.
Qed.

(** The inputs of the documentation. *)
Example parseCommaSeparatedString_examples :
  parseCommaSeparatedString (Some "a,b") (Some ["a"; "b"]) = Return (Some ["a"; "b"]) /\
  parseCommaSeparatedString (Some "a,a") None =
    Throw (BadRequestError "Duplicate values: a") /\
  (forall allowed, parseCommaSeparatedString (Some "") allowed = Return None) /\
  (forall allowed, parseCommaSeparatedString None allowed = Return None).
Proof. repeat split. Qed.

End ParseFacts.

(** ** Pagination headers *)

Module PaginationFacts.
Import Js Pagination JsFacts.

Lemma append_cons (ch : ascii) (a b : string) :
  String ch a +:+ b = String ch (a +:+ b).
Proof. reflexivity. Qed.

Lemma append_assoc (a b c : string) : (a +:+ b) +:+ c = a +:+ (b +:+ c).
Proof.
  induction a as [|ch a IH]; [reflexivity|].
  rewrite !append_cons. now rewrite IH.
Qed.

(** [ceil_div a b] is the least number of pages of [b] items that hold
    [a] items. *)
Lemma ceil_div_bounds (a b : Z) :
  0 < b -> (ceil_div a b - 1) * b < a <= ceil_div a b * b.
Proof.
  intros Hb. unfold ceil_div.
  pose proof (Z.mul_div_le (- a) b Hb).
  pose proof (Z.mul_succ_div_gt (- a) b Hb). lia.
Qed.

Lemma ceil_div_least (a b n : Z) : 0 < b -> a <= n * b -> ceil_div a b <= n.
Proof.
  intros Hb Hn. pose proof (ceil_div_bounds a b Hb). nia.
Qed.

Lemma ceil_div_zero (b : Z) : ceil_div 0 b = 0.
Proof. reflexivity. Qed.

Lemma ceil_div_nonneg (a b : Z) : 0 < b -> 0 <= a -> 0 <= ceil_div a b.
Proof.
  intros Hb Ha. pose proof (ceil_div_bounds a b Hb). nia.
Qed.

(** *** Objects in key order *)

Lemma assoc_get_object_set_eq (k : string) (v : JsValue) (obj : list (string * JsValue)) :
  assoc_get k (object_set k v obj) = Some v.
Proof.
  induction obj as [|[k' v'] rest IH]; simpl.
  - now rewrite String.eqb_refl.
  - destruct (String.eqb k k') eqn:Heq; simpl.
    + now rewrite String.eqb_refl.
    + now rewrite Heq.
Qed.

Lemma assoc_get_object_set_ne (k k0 : string) (v : JsValue)
  (obj : list (string * JsValue)) :
  k0 <> k -> assoc_get k0 (object_set k v obj) = assoc_get k0 obj.
Proof.
  intros Hne. induction obj as [|[k' v'] rest IH]; simpl.
  - apply String_eqb_false in Hne. now rewrite Hne.
  - destruct (String.eqb k k') eqn:Heq; simpl.
    + apply String_eqb_true in Heq. subst k'.
      apply String_eqb_false in Hne. now rewrite Hne.
    + now rewrite IH.
Qed.

(** Writing a key the object does not have puts it last. *)
Lemma object_set_new (k : string) (v : JsValue) (obj : list (string * JsValue)) :
  k ∉ obj.*1 -> object_set k v obj = (obj ++ [(k, v)])%list.
Proof.
  induction obj as [|[k' v'] rest IH]; simpl; intros Hnew; [reflexivity|].
  apply not_elem_of_cons in Hnew. destruct Hnew as [Hne Hnew].
  apply String_eqb_false in Hne. rewrite Hne. now rewrite IH.
Qed.

(** Copying an object into another one that shares no key with it lists
    the copied properties after the others, in their order. *)
Lemma assignIn_disjoint (source target : list (string * JsValue)) :
  NoDup source.*1 -> (forall k, k ∈ source.*1 -> k ∉ target.*1) ->
  assignIn target source = (target ++ source)%list.
Proof.
  unfold assignIn. revert target.
  induction source as [|[k v] rest IH]; intros target Hnodup Hdisj; simpl.
  - now rewrite app_nil_r.
  - simpl in Hnodup. apply NoDup_cons in Hnodup. destruct Hnodup as [Hk Hnodup].
    rewrite object_set_new; [|apply Hdisj; simpl; apply elem_of_cons; now left].
    rewrite IH; [now rewrite <- app_assoc|assumption|].
    intros k0 Hk0. rewrite fmap_app. simpl. intros Hin.
    apply elem_of_app in Hin. destruct Hin as [Hin|Hin].
    + apply (Hdisj k0); [simpl; apply elem_of_cons; now right|assumption].
    + apply list_elem_of_singleton in Hin. now subst k0.
Qed.

(** The query object of a page link is the query of the request with
    [page] overwritten, or added last when the request has none. *)
Lemma page_query_object_set (req : Request) (p : Z) :
  NoDup (query req).*1 ->
  page_query req p = object_set "page" (JNum p) (query req).
Proof.
  intros Hnodup. unfold page_query.
  rewrite (assignIn_disjoint (query req) []); [reflexivity|assumption|].
  intros k _. apply not_elem_of_nil.
Qed.

(** *** The headers *)

Section Headers.

Variable stringify : list (string * JsValue) -> string.
Variable req : Request.
Variable res : Response.
Variable result : PageResult.

Let totalPages : Z := ceil_div (total result) (perPage result).
Let res' : Response := setResHeaders stringify req res result.

(** The four counters are written whatever the result is. *)
Lemma setResHeaders_counters :
  res' !! "X-Page" = Some (num_to_string (page result)) /\
  res' !! "X-Per-Page" = Some (num_to_string (perPage result)) /\
  res' !! "X-Total" = Some (num_to_string (total result)) /\
  res' !! "X-Total-Pages" = Some (num_to_string totalPages).
Proof.
  subst res' totalPages. unfold setResHeaders, res_set.
  repeat case_match; simplify_map_eq; auto.
Qed.

Lemma setResHeaders_prev :
  res' !! "X-Prev-Page" =
  if 1 <? page result then Some (num_to_string (page result - 1))
  else res !! "X-Prev-Page".
Proof.
  subst res' totalPages. unfold setResHeaders, res_set.
  repeat case_match; simplify_map_eq; auto.
Qed.

Lemma setResHeaders_next :
  res' !! "X-Next-Page" =
  if page result <? totalPages then Some (num_to_string (page result + 1))
  else res !! "X-Next-Page".
Proof.
  subst res' totalPages. unfold setResHeaders, res_set.
  repeat case_match; simplify_map_eq; auto.
Qed.

(** The [Link] header is written when there is at least one page, and
    then it is the text of the anchors. *)
Lemma setResHeaders_link_header :
  res' !! "Link" =
  if 0 <? totalPages then Some (render_link (link_anchors stringify req result))
  else res !! "Link".
Proof.
  subst res' totalPages. unfold setResHeaders, res_set, link_anchors.
  repeat case_match; simplify_map_eq; auto;
    unfold render_link, render_anchor; cbn [fst snd app to_string];
    f_equal; rewrite ?append_assoc; reflexivity.
Qed.

End Headers.


(** C6, as the code has it.  For a result with [page >= 1],
    [perPage >= 1] and [total >= 0], [setResHeaders] always writes
    [X-Page], [X-Per-Page], [X-Total] and [X-Total-Pages], the last one
    being the ceiling of [total / perPage]; it writes [X-Prev-Page] as
    [page - 1] when [page > 1] and leaves it alone on the first page; it
    writes [X-Next-Page] as [page + 1] when [page < totalPages] and leaves
    it alone otherwise.  With [total = 45] and [perPage = 10], page 1 gets
    [X-Total-Pages: 5], no [X-Prev-Page] and [X-Next-Page: 2], and page 5
    gets [X-Prev-Page: 4] and no [X-Next-Page].  With [total = 0] the
    result gets [X-Total-Pages: 0], no [X-Next-Page] and no [Link]; it
    gets no [X-Prev-Page] either when the page is the first one. *)
Theorem setResHeaders_navigation
  (stringify : list (string * JsValue) -> string)
  (req : Request) (res : Response) (result : PageResult) :
  1 <= page result -> 1 <= perPage result -> 0 <= total result ->
  let totalPages := ceil_div (total result) (perPage result) in
  let res' := setResHeaders stringify req res result in
  ((totalPages - 1) * perPage result < total result <= totalPages * perPage result) /\
  (res' !! "X-Page" = Some (num_to_string (page result)) /\
   res' !! "X-Per-Page" = Some (num_to_string (perPage result)) /\
   res' !! "X-Total" = Some (num_to_string (total result)) /\
   res' !! "X-Total-Pages" = Some (num_to_string totalPages)) /\
  (1 < page result ->
     res' !! "X-Prev-Page" = Some (num_to_string (page result - 1))) /\
  (page result = 1 -> res' !! "X-Prev-Page" = res !! "X-Prev-Page") /\
  (page result < totalPages ->
     res' !! "X-Next-Page" = Some (num_to_string (page result + 1))) /\
  (totalPages <= page result -> res' !! "X-Next-Page" = res !! "X-Next-Page") /\
  (total result = 0 ->
     res' !! "X-Total-Pages" = Some "0" /\
     res' !! "X-Next-Page" = res !! "X-Next-Page" /\
     res' !! "Link" = res !! "Link") /\
  (let first_page :=
     setResHeaders stringify req ∅ {| page := 1; perPage := 10; total := 45 |} in
   first_page !! "X-Total-Pages" = Some "5" /\
   first_page !! "X-Prev-Page" = None /\
   first_page !! "X-Next-Page" = Some "2") /\
  (let last_page :=
     setResHeaders stringify req ∅ {| page := 5; perPage := 10; total := 45 |} in
   last_page !! "X-Total-Pages" = Some "5" /\
   last_page !! "X-Prev-Page" = Some "4" /\
   last_page !! "X-Next-Page" = None) /\
  (let no_match :=
     setResHeaders stringify req ∅ {| page := 1; perPage := 10; total := 0 |} in
   no_match !! "X-Total-Pages" = Some "0" /\
   no_match !! "X-Prev-Page" = None /\
   no_match !! "X-Next-Page" = None /\
   no_match !! "Link" = None).
Proof.
  intros Hpage HperPage Htotal totalPages res'.
  pose proof (ceil_div_bounds (total result) (perPage result) ltac:(lia)) as Hceil.
  pose proof (setResHeaders_counters stringify req res result) as Hcount.
  pose proof (setResHeaders_prev stringify req res result) as Hprev.
  pose proof (setResHeaders_next stringify req res result) as Hnext.
  pose proof (setResHeaders_link_header stringify req res result) as Hlink.
  cbv zeta in Hcount, Hprev, Hnext, Hlink.
  fold totalPages in Hceil, Hcount, Hnext, Hlink.
  fold res' in Hcount, Hprev, Hnext, Hlink.
  split; [exact Hceil|]. split; [exact Hcount|].
  split; [|split; [|split; [|split; [|split]]]].
  - intros H. rewrite Hprev. now destruct (Z.ltb_spec 1 (page result)); [|lia].
  - intros H. rewrite Hprev. now destruct (Z.ltb_spec 1 (page result)); [lia|].
  - intros H. rewrite Hnext.
    now destruct (Z.ltb_spec (page result) totalPages); [|lia].
  - intros H. rewrite Hnext.
    now destruct (Z.ltb_spec (page result) totalPages); [lia|].
  - intros Hzero.
    assert (Hpages : totalPages = 0).
    { subst totalPages. rewrite Hzero. apply ceil_div_zero. }
    rewrite Hnext, Hlink. destruct Hcount as (_ & _ & _ & ->). rewrite Hpages.
    destruct (Z.ltb_spec (page result) 0); [lia|]. repeat split.
  - repeat split.
Qed.

(** The theorem on the first page of 45 members, ten to a page. *)
Lemma setResHeaders_navigation_witness :
  let res' :=
    setResHeaders plain_stringify members_request ∅
      {| page := 1; perPage := 10; total := 45 |} in
  (res' !! "X-Page" = Some "1" /\ res' !! "X-Per-Page" = Some "10" /\
   res' !! "X-Total" = Some "45" /\ res' !! "X-Total-Pages" = Some "5") /\
  res' !! "X-Prev-Page" = None /\
  res' !! "X-Next-Page" = Some "2".
Proof.
  pose proof (setResHeaders_navigation plain_stringify members_request ∅
                {| page := 1; perPage := 10; total := 45 |}
                ltac:(simpl; lia) ltac:(simpl; lia) ltac:(simpl; lia)) as H.
  cbv zeta in H.
  destruct H as (_ & Hcount & _ & Hprev & Hnext & _).
  split; [exact Hcount|]. split.
  - exact (Hprev eq_refl).
  - apply Hnext. reflexivity.
Defined.

(** C6 as stated fails for an empty result asked for its second page:
    [X-Prev-Page] is written although [total] is 0. *)
Lemma setResHeaders_prev_without_matches :
  let result := {| page := 2; perPage := 10; total := 0 |} in
  (1 <= page result /\ 1 <= perPage result /\ 0 <= total result) /\
  total result = 0 /\
  setResHeaders plain_stringify members_request ∅ result !! "X-Prev-Page" = Some "1".
Proof. cbv zeta. simpl. repeat split; lia. Qed.


End PaginationFacts.

(** ** The query string of a page link *)

Module QuerystringFacts.
Import Js Pagination Util Querystring JsFacts PaginationFacts.

(** *** Percent-encoding *)






(** *** Fields *)
















(** *** The page links *)









End QuerystringFacts.

(** ** Searching a list of names *)

Module UtilFacts.
Import Js Auth Util JsFacts.

Lemma split_comma_split_on (s : string) : split_comma s = split_on ","%char s.
Proof. induction s as [|c rest IH]; simpl; [reflexivity|]. now rewrite IH. Qed.

Lemma split_on_nonempty (sep : ascii) (s : string) : split_on sep s <> [].
Proof.
  destruct s as [|c rest]; simpl; [discriminate|].
  destruct (Ascii.eqb c sep); [discriminate|].
  destruct (split_on sep rest); discriminate.
Qed.

(** Only the space has the space as its lower-case form. *)
Lemma lower_char_space (c : ascii) :
  Ascii.eqb (lower_char c) " "%char = Ascii.eqb c " "%char.
Proof. destruct c as [[] [] [] [] [] [] [] []]; reflexivity. Qed.

(** Splitting at spaces commutes with lower-casing. *)
Lemma split_on_space_lower (t : string) :
  split_on " "%char (toLowerCase t) = List.map toLowerCase (split_on " "%char t).
Proof.
  induction t as [|c rest IH]; simpl; [reflexivity|].
  rewrite lower_char_space, IH.
  destruct (Ascii.eqb c " "%char); [reflexivity|].
  pose proof (split_on_nonempty " "%char rest) as Hne.
  destruct (split_on " "%char rest); [contradiction|reflexivity].
Qed.

Lemma lower_all_strings (names : list string) :
  lower_all (List.map JStr names) = Some (List.map toLowerCase names).
Proof. induction names as [|n rest IH]; simpl; [reflexivity|]. now rewrite IH. Qed.

(** The search loop finds a term of the list that equals a name of the
    source, letter case apart, whenever there is one. *)
Lemma search_loop_true (names words : list string) :
  existsb (array_includes (List.map toLowerCase names)) (List.map toLowerCase words) = true
  <-> exists word name, In word words /\ In name names /\ same_ignoring_case name word.
Proof.
  unfold array_includes, same_ignoring_case. rewrite existsb_In. split.
  - intros (w' & Hw' & Hex). apply existsb_In in Hex.
    destruct Hex as (n' & Hn' & Heq). apply String_eqb_true in Heq. subst n'.
    apply in_map_iff in Hw'. destruct Hw' as (word & <- & Hword).
    apply in_map_iff in Hn'. destruct Hn' as (name & Hname & Hin).
    exists word, name. auto.
  - intros (word & name & Hword & Hname & Heq).
    exists (toLowerCase word). split; [now apply in_map|].
    apply existsb_In. exists (toLowerCase name). split; [now apply in_map|].
    apply String_eqb_true. now symmetry.
Qed.

(** [checkIfExists] on a source of strings.  With a string as the term
    the answer is true exactly when one of the pieces of the term between
    spaces equals, letter case apart, one of the names of the source; with
    an array of strings as the term, exactly when one of its elements
    does.  Pieces may be empty: a term with a leading, trailing or doubled
    space is found in a source that holds the empty string. *)
Theorem checkIfExists_found (names : list string) :
  (forall t, exists found,
     checkIfExists (strings names) (JStr t) = Returns found /\
     (found = true <->
      exists word name, In word (split_on " "%char t) /\ In name names /\
                        same_ignoring_case name word)) /\
  (forall ts, exists found,
     checkIfExists (strings names) (strings ts) = Returns found /\
     (found = true <->
      exists t name, In t ts /\ In name names /\ same_ignoring_case name t)).
Proof.
  split.
  - intros t. unfold checkIfExists, strings, terms_of.
    rewrite lower_all_strings, split_on_space_lower.
    eexists. split; [reflexivity|]. apply search_loop_true.
  - intros ts. unfold checkIfExists, strings, terms_of.
    rewrite !lower_all_strings.
    eexists. split; [reflexivity|]. apply search_loop_true.
Qed.

(** The errors of [checkIfExists], in the order the code raises them: a
    source that is no array is refused whatever the term is; then a source
    element without [toLowerCase] raises a [TypeError], again whatever the
    term is; only then is a term that is neither a string nor an array
    refused.  An empty source holds no term. *)
Theorem checkIfExists_errors (source term : JsValue) :
  match source with
  | JArr elems =>
      match lower_all elems with
      | None => checkIfExists source term = Raises TypeErrorRaised
      | Some lowered =>
          match term with
          | JStr _ => exists found, checkIfExists source term = Returns found /\
                                    (elems = [] -> found = false)
          | JArr ts =>
              match lower_all ts with
              | None => checkIfExists source term = Raises TypeErrorRaised
              | Some _ => exists found, checkIfExists source term = Returns found /\
                                        (elems = [] -> found = false)
              end
          | _ => checkIfExists source term =
                 Raises (PlainError "Term argument should be either a string or an array")
          end
      end
  | _ => checkIfExists source term =
         Raises (PlainError "Source argument should be an array")
  end.
Proof.
  assert (Hempty : forall terms, existsb (array_includes []) terms = false).
  { induction terms as [|w rest IH]; simpl; [reflexivity|exact IH]. }
  unfold checkIfExists.
  destruct source as [| | | | |elems| |]; try reflexivity.
  destruct (lower_all elems) as [lowered|] eqn:Hlow; [|reflexivity].
  destruct term as [| | | |t|ts| |]; simpl; try reflexivity.
  - eexists. split; [reflexivity|]. intros ->. injection Hlow as <-. apply Hempty.
  - destruct (lower_all ts); [|reflexivity].
    eexists. split; [reflexivity|]. intros ->. injection Hlow as <-. apply Hempty.
Qed.

Lemma includes_lowered (admins : list string) (role : string) :
  array_includes (List.map toLowerCase admins) (toLowerCase role) =
  existsb (fun admin => String.eqb (toLowerCase role) (toLowerCase admin)) admins.
Proof.
  unfold array_includes.
  induction admins as [|admin rest IH]; simpl; [reflexivity|]. now rewrite IH.
Qed.

(** [hasAdminRole] is [checkIfExists] with the administrative roles as
    the source and the roles of the user as the term. *)
Theorem hasAdminRole_is_checkIfExists (ADMIN_ROLES rs : list string)
  (machine : bool) (h : option string) :
  checkIfExists (strings ADMIN_ROLES) (strings rs) =
  Returns (hasAdminRole ADMIN_ROLES
             {| roles := Some rs; isMachine := machine; handle := h |}).
Proof.
  unfold checkIfExists, strings, terms_of, hasAdminRole. simpl.
  rewrite !lower_all_strings. f_equal.
  induction rs as [|role rest IH]; simpl; [reflexivity|].
  now rewrite IH, includes_lowered.
Qed.

(** [checkIfExists] does not see letter case, in the source or in the
    term, be the term a string or an array of strings. *)
Theorem checkIfExists_ignores_case (names names' : list string) :
  Forall2 differ_in_case_only names names' ->
  (forall t t', differ_in_case_only t t' ->
     checkIfExists (strings names) (JStr t) = checkIfExists (strings names') (JStr t')) /\
  (forall ts ts', Forall2 differ_in_case_only ts ts' ->
     checkIfExists (strings names) (strings ts)
     = checkIfExists (strings names') (strings ts')).
Proof.
  assert (Hlower : forall l l', Forall2 differ_in_case_only l l' ->
            List.map toLowerCase l = List.map toLowerCase l').
  { induction 1 as [|n n' l l' Hn _ IH]; simpl; [reflexivity|].
    apply AuthFacts.same_ignoring_case_letters in Hn.
    unfold same_ignoring_case in Hn. now rewrite Hn, IH. }
  intros Hnames. apply Hlower in Hnames. split.
  - intros t t' Ht.
    apply AuthFacts.same_ignoring_case_letters in Ht. unfold same_ignoring_case in Ht.
    unfold checkIfExists, strings, terms_of.
    now rewrite !lower_all_strings, Hnames, Ht.
  - intros ts ts' Hts. apply Hlower in Hts.
    unfold checkIfExists, strings, terms_of.
    now rewrite !lower_all_strings, Hnames, Hts.
Qed.

Lemma checkIfExists_ignores_case_witness :
  checkIfExists (strings ["Admin"; "Copilot"]) (JStr "connect ADMIN") =
  checkIfExists (strings ["admin"; "COPILOT"]) (JStr "Connect admin") /\
  checkIfExists (strings ["Admin"; "Copilot"]) (strings ["Manager"; "COPILOT"]) =
  checkIfExists (strings ["admin"; "COPILOT"]) (strings ["manager"; "copilot"]).
Proof.
  assert (Hnames : Forall2 differ_in_case_only ["Admin"; "Copilot"] ["admin"; "COPILOT"]).
  { constructor; [|constructor; [|constructor]];
      apply AuthFacts.same_ignoring_case_letters; reflexivity. }
  destruct (checkIfExists_ignores_case _ _ Hnames) as [Hstring Harray].
  split.
  - apply Hstring. apply AuthFacts.same_ignoring_case_letters. reflexivity.
  - apply Harray. constructor; [|constructor; [|constructor]];
      apply AuthFacts.same_ignoring_case_letters; reflexivity.
Defined.

End UtilFacts.

(** ** Comma-separated lists, continued *)

Module ParseMore.
Import Js Async Parse Util JsFacts ParseFacts UtilFacts.

(** Joining the pieces of a split with the separator gives the string
    back. *)
Lemma split_on_join (sep : ascii) (s : string) :
  String.concat (String sep EmptyString) (split_on sep s) = s.
Proof.
  induction s as [|c rest IH]; [reflexivity|]. simpl split_on.
  pose proof (split_on_nonempty sep rest) as Hne.
  destruct (Ascii.eqb_spec c sep) as [->|Hc].
  - destruct (split_on sep rest) as [|piece pieces]; [contradiction|].
    change (String sep (String.concat (String sep EmptyString) (piece :: pieces))
            = String sep rest).
    now rewrite IH.
  - destruct (split_on sep rest) as [|piece pieces]; [contradiction|].
    destruct pieces as [|piece' pieces].
    + simpl in *. now rewrite IH.
    + change (String c (String.concat (String sep EmptyString)
                          (piece :: piece' :: pieces)) = String c rest).
      now rewrite IH.
Qed.

(** No piece of a split holds the separator. *)
Lemma split_on_pieces (sep : ascii) (s : string) :
  Forall (fun piece => ~ In sep (list_ascii_of_string piece)) (split_on sep s).
Proof.
  induction s as [|c rest IH]; simpl.
  - constructor; [|constructor]. simpl. tauto.
  - destruct (Ascii.eqb_spec c sep) as [->|Hc].
    + constructor; [simpl; tauto|exact IH].
    + destruct (split_on sep rest) as [|piece pieces].
      * constructor; [|constructor]. simpl. intros [H|[]]. congruence.
      * inversion IH as [|? ? Hpiece Hpieces]; subst.
        constructor; [|assumption]. simpl. intros [H|H]; [congruence|tauto].
Qed.

(** The values [parseCommaSeparatedString] returns are the string it was
    given, cut at the commas and otherwise untouched: joined by commas
    they give the string back, and none of them holds a comma.  Nothing
    is trimmed or re-cased on the way. *)
Theorem parseCommaSeparatedString_round_trip (str : string)
  (allowed : option (list string)) (values : list string) :
  parseCommaSeparatedString (Some str) allowed = Return (Some values) ->
  String.concat "," values = str /\
  Forall (fun value => ~ In ","%char (list_ascii_of_string value)) values /\
  values <> [].
Proof.
  unfold parseCommaSeparatedString. intros Hparse.
  destruct (truthy (JStr str)); [|discriminate].
  destruct (check_values allowed ∅ (split_comma str)); [|discriminate].
  injection Hparse as <-. rewrite split_comma_split_on.
  split; [apply split_on_join|]. split; [apply split_on_pieces|].
  apply split_on_nonempty.
Qed.

Lemma parseCommaSeparatedString_round_trip_witness :
  String.concat "," ["handle"; " email"; "Status"] = "handle, email,Status" /\
  Forall (fun value => ~ In ","%char (list_ascii_of_string value))
         ["handle"; " email"; "Status"] /\
  ["handle"; " email"; "Status"] <> [].
Proof.
  apply (parseCommaSeparatedString_round_trip "handle, email,Status" None).
  reflexivity.
Defined.

(** One run of the callback under a longer list of allowed values, or
    under none, accepts what it accepted before. *)
Lemma check_value_more_allowed (allowed : list string) (more : option (list string))
  (mapping mapping' : gmap string JsValue) (value : string) :
  match more with
  | Some allowed' => forall v, In v allowed -> In v allowed'
  | None => True
  end ->
  check_value (Some allowed) mapping value = Return mapping' ->
  check_value more mapping value = Return mapping'.
Proof.
  intros Hmore. unfold check_value.
  destruct (String.length (trim value) =? 0)%nat; [discriminate|].
  destruct (includes allowed value) eqn:Hin; simpl; [|discriminate].
  destruct more as [allowed'|]; [|tauto].
  assert (Hin' : includes allowed' value = true).
  { apply includes_true, list_elem_of_In, Hmore, list_elem_of_In, includes_true, Hin. }
  now rewrite Hin'.
Qed.

Lemma check_values_more_allowed (allowed : list string) (more : option (list string))
  (values : list string) :
  match more with
  | Some allowed' => forall v, In v allowed -> In v allowed'
  | None => True
  end ->
  forall mapping,
  check_values (Some allowed) mapping values = Return tt ->
  check_values more mapping values = Return tt.
Proof.
  intros Hmore. induction values as [|value rest IH]; intros mapping; simpl;
    [reflexivity|].
  destruct (check_value (Some allowed) mapping value) as [mapping'|exn] eqn:Hstep;
    [|discriminate].
  rewrite (check_value_more_allowed allowed more mapping mapping' value Hmore Hstep).
  apply IH.
Qed.

(** A string that parses under a list of allowed values parses to the
    same values under any longer list, and with no list at all: allowing
    more never turns a success into an error. *)
Theorem parseCommaSeparatedString_more_allowed (s : option string)
  (allowed allowed' : list string) (parsed : option (list string)) :
  (forall v, In v allowed -> In v allowed') ->
  parseCommaSeparatedString s (Some allowed) = Return parsed ->
  parseCommaSeparatedString s (Some allowed') = Return parsed /\
  parseCommaSeparatedString s None = Return parsed.
Proof.
  intros Hmore. unfold parseCommaSeparatedString.
  destruct s as [str|]; [|auto].
  destruct (truthy (JStr str)); [|auto].
  destruct (check_values (Some allowed) ∅ (split_comma str)) as [[]|exn] eqn:Hloop;
    [|discriminate].
  intros Hparse.
  rewrite (check_values_more_allowed allowed (Some allowed') _ Hmore ∅ Hloop).
  rewrite (check_values_more_allowed allowed None _ I ∅ Hloop). auto.
Qed.

Lemma parseCommaSeparatedString_more_allowed_witness :
  parseCommaSeparatedString (Some "handle,email") (Some ["handle"; "email"; "status"])
  = Return (Some ["handle"; "email"]) /\
  parseCommaSeparatedString (Some "handle,email") None
  = Return (Some ["handle"; "email"]).
Proof.
  apply (parseCommaSeparatedString_more_allowed (Some "handle,email")
           ["handle"; "email"] ["handle"; "email"; "status"]).
  - simpl. tauto.
  - reflexivity.
Defined.

End ParseMore.

(** ** Data access, continued *)

Module StoreMore.
Import Js Async Store JsFacts StoreFacts.

(** [getMemberByHandle] is [getEntityByHashKey] on the model [Member],
    the key [handleLower] and the handle in lower case: the two end
    alike, and differ only in the text of the [NotFoundError], which
    quotes the handle as it was typed. *)
Theorem getMemberByHandle_is_getEntityByHashKey (models : Models) (handle : string) :
  same_ending (getMemberByHandle models handle)
    (getEntityByHashKey models "Member" "handleLower" (JStr (toLowerCase handle))) /\
  (forall message,
     getMemberByHandle models handle = Reject (NotFoundError message) ->
     message = member_not_found_message handle).
Proof.
  unfold getMemberByHandle, getEntityByHashKey.
  destruct (models !! "Member") as [model|]; [|split; [reflexivity|discriminate]].
  destruct (query_eq_exec model "handleLower" (JStr (toLowerCase handle)))
    as [err|[[[|first rest] n]|]]; simpl; split; try reflexivity; try discriminate;
    try exact I; intros message [= <-]; reflexivity.
Qed.

(** The four read helpers reject with a store error only when the store
    reported that very error for the call they made, and with a
    [TypeError] only when the name is no model; none of them swallows or
    replaces an error of the store. *)
Theorem read_helpers_errors (models : Models) (modelName hashKeyName : string)
  (value params : JsValue) (err : JsValue) :
  (getEntityByHashKey models modelName hashKeyName value = Reject (StoreError err) <->
   exists model, models !! modelName = Some model /\
                 query_eq_exec model hashKeyName value = ExecErr err) /\
  (scan models modelName params = Reject (StoreError err) <->
   exists model, models !! modelName = Some model /\
                 scan_exec model params = ExecErr err) /\
  (query models modelName params = Reject (StoreError err) <->
   exists model, models !! modelName = Some model /\
                 query_exec model params = ExecErr err) /\
  (getEntityByHashKey models modelName hashKeyName value = Reject TypeError <->
   models !! modelName = None) /\
  (scan models modelName params = Reject TypeError <-> models !! modelName = None) /\
  (query models modelName params = Reject TypeError <-> models !! modelName = None).
Proof.
  unfold getEntityByHashKey, scan, query.
  destruct (models !! modelName) as [model|].
  2:{ repeat split; try discriminate; try reflexivity;
        intros (model & Hmodel & _); discriminate. }
  repeat split.
  - destruct (query_eq_exec model hashKeyName value)
      as [e|[[[|first rest] n]|]] eqn:Hexec; try discriminate.
    intros [= ->]. eauto.
  - intros (model' & [= <-] & ->). reflexivity.
  - destruct (scan_exec model params) as [e|[[its [[| |]|]]|]] eqn:Hexec;
      try discriminate.
    intros [= ->]. eauto.
  - intros (model' & [= <-] & ->). reflexivity.
  - destruct (query_exec model params) as [e|[r|]] eqn:Hexec; try discriminate.
    intros [= ->]. eauto.
  - intros (model' & [= <-] & ->). reflexivity.
  - destruct (query_eq_exec model hashKeyName value) as [e|[[[|first rest] n]|]];
      discriminate.
  - discriminate.
  - destruct (scan_exec model params) as [e|[[its [[| |]|]]|]]; discriminate.
  - discriminate.
  - destruct (query_exec model params) as [e|[r|]]; discriminate.
  - discriminate.
Qed.

(** A null result from the store: [getEntityByHashKey] takes it for no
    row and [query] for an empty sequence, but [scan] raises while reading
    [count], inside the callback, so its promise is settled by nobody. *)
Theorem null_result (models : Models) (modelName hashKeyName : string)
  (value params : JsValue) (model : Model) :
  models !! modelName = Some model ->
  (query_eq_exec model hashKeyName value = ExecOk None ->
   exists message,
     getEntityByHashKey models modelName hashKeyName value =
     Reject (NotFoundError message)) /\
  (query_exec model params = ExecOk None ->
   query models modelName params = Resolve (Some empty_array)) /\
  (scan_exec model params = ExecOk None ->
   scan models modelName params = CallbackThrows TypeError).
Proof.
  intros Hmodel. unfold getEntityByHashKey, query, scan. rewrite Hmodel.
  repeat split.
  - intros ->. eexists. reflexivity.
  - now intros ->.
  - now intros ->.
Qed.

(** A store whose every call answers with a null result. *)
Lemma null_result_witness :
  let null_model :=
    {| query_eq_exec := fun _ _ => ExecOk None;
       query_exec := fun _ => ExecOk None;
       scan_exec := fun _ => ExecOk None |} in
  query {[ "Member" := null_model ]} "Member" JNull = Resolve (Some empty_array) /\
  scan {[ "Member" := null_model ]} "Member" JNull = CallbackThrows TypeError.
Proof.
  intros null_model.
  assert (Hmodel : ({[ "Member" := null_model ]} : Models) !! "Member"
                   = Some null_model) by reflexivity.
  destruct (null_result {[ "Member" := null_model ]} "Member" "userId"
              JNull JNull null_model Hmodel) as (_ & Hquery & Hscan).
  split; [exact (Hquery eq_refl)|exact (Hscan eq_refl)].
Defined.

(** *** update *)

(** Two updates in a row amount to one update with the two payloads
    merged, the later payload winning on the keys they share: the last
    write wins, field by field.  The first payload must give [__proto__]
    neither an object nor null, which would change what the second
    assignment to [__proto__] does. *)
Theorem update_last_write_wins (save1 save2 save : Item -> option JsValue)
  (call1 call2 call : string -> Item -> Outcome Item)
  (dbItem : Item) (data1 data2 : Entity) :
  (forall v, data1 !! "__proto__" = Some v -> swaps_prototype v = false) ->
  (update save2 call2 (update save1 call1 dbItem data1).1 data2).1 =
  (update save call dbItem (data2 ∪ data1)).1.
Proof.
  intros Hproto. unfold update. cbn [fst]. apply item_eq.
  - intros key Hkey. rewrite !assign_fields_lookup by assumption.
    rewrite lookup_union. destruct (data2 !! key), (data1 !! key); reflexivity.
  - pose proof (assign_fields_proto_state dbItem data1) as Hfirst.
    rewrite (assign_fields_proto_state (assign_fields dbItem data1) data2).
    rewrite (assign_fields_proto_state dbItem (data2 ∪ data1)), lookup_union.
    destruct (data1 !! "__proto__") as [v1|] eqn:Hv1;
      destruct (data2 !! "__proto__") as [v2|]; simpl.
    + rewrite (item_set_proto_state _ _ v2 Hfirst).
      apply item_set_proto_twice. auto.
    + exact Hfirst.
    + apply item_set_proto_state, Hfirst.
    + exact Hfirst.
Qed.

Lemma update_last_write_wins_witness :
  let save := fun _ : Item => None in
  let call := fun (_ : string) (item : Item) => Resolve item in
  let member := loaded {[ "handle" := JStr "tonyj"; "status" := JStr "ACTIVE" ]} in
  let data1 : Entity := {[ "status" := JStr "INACTIVE"; "country" := JStr "JP" ]} in
  let data2 : Entity := {[ "status" := JStr "ACTIVE" ]} in
  (update save call (update save call member data1).1 data2).1 =
  (update save call member (data2 ∪ data1)).1.
Proof.
  intros save call member data1 data2.
  apply (update_last_write_wins save save save call call call member data1 data2).
  intros v Hv.
  assert (Hdata : data1 !! "__proto__" = None) by reflexivity.
  rewrite Hdata in Hv. discriminate Hv.
Defined.

(** [update] never drops a field: every field the item had is still
    there, and, the name [__proto__] apart, the fields of the item
    afterwards are those of the payload together with those it had, a key
    given the value [undefined] included.  With an empty payload the item
    is unchanged, and its [save] is called all the same. *)
Theorem update_fields (save : Item -> option JsValue)
  (call : string -> Item -> Outcome Item) (dbItem : Item) (data : Entity) :
  let after := (update save call dbItem data).1 in
  (forall key, is_Some (fields dbItem !! key) -> is_Some (fields after !! key)) /\
  (forall key, key <> "__proto__" ->
     (is_Some (fields after !! key) <->
      is_Some (data !! key) \/ is_Some (fields dbItem !! key))) /\
  (forall key, key <> "__proto__" -> data !! key = Some JUndefined ->
     fields after !! key = Some JUndefined) /\
  (update save call dbItem ∅).1 = dbItem /\
  (save_property dbItem = None ->
   (update save call dbItem ∅).2 =
   match save dbItem with
   | Some err => Reject (StoreError err)
   | None => Resolve dbItem
   end).
Proof.
  unfold update. cbn [fst snd]. cbv zeta. rewrite assign_fields_empty.
  split; [|split; [|split; [|split]]].
  - intros key Hkey. destruct (decide (key = "__proto__")) as [->|Hne].
    + pose proof (assign_fields_proto_state dbItem data) as Hstate.
      unfold proto_state in Hstate.
      destruct (data !! "__proto__") as [v|].
      * injection Hstate as -> _. now apply item_set_proto_keeps.
      * injection Hstate as -> _. exact Hkey.
    + rewrite assign_fields_lookup by assumption.
      destruct (data !! key); eauto.
  - intros key Hne. rewrite assign_fields_lookup by assumption.
    destruct (data !! key) as [v|]; split; eauto.
    intros [[v Hv]|H]; [discriminate|exact H].
  - intros key Hne Hkey. now rewrite assign_fields_lookup, Hkey.
  - reflexivity.
  - now intros ->.
Qed.

End StoreMore.

(** ** Pagination headers, continued *)

Module PaginationMore.
Import Js Pagination Headers JsFacts PaginationFacts.

Section Overlay.

Variable stringify : list (string * JsValue) -> string.
Variable req : Request.
Variable result : PageResult.

(** What [setResHeaders] writes does not depend on the response it is
    given: the response afterwards is the headers written on a fresh
    response, laid over the headers it had. *)
Lemma setResHeaders_overlay (res : Response) :
  setResHeaders stringify req res result =
  setResHeaders stringify req ∅ result ∪ res.
Proof.
  unfold setResHeaders, res_set.
  repeat case_match; rewrite <- ?insert_union_l; now rewrite (left_id ∅ (∪)).
Qed.

(** [setResHeaders] leaves every header other than its seven as it was,
    and removes none: a header the response had is still there, so a
    [Link] or an [X-Prev-Page] written by an earlier call stays when a
    later call does not write that header.  Calling it again with the
    same request and result changes nothing more. *)
Theorem setResHeaders_frame (res : Response) :
  (forall field, In field navigation_headers \/
     setResHeaders stringify req res result !! field = res !! field) /\
  (forall field, is_Some (res !! field) ->
     is_Some (setResHeaders stringify req res result !! field)) /\
  setResHeaders stringify req (setResHeaders stringify req res result) result =
  setResHeaders stringify req res result.
Proof.
  split; [|split].
  - intros field. unfold navigation_headers, setResHeaders, res_set. simpl.
    repeat case_match;
      repeat (rewrite lookup_insert; case_decide; [subst; tauto|]);
      now right.
  - intros field [v Hv]. rewrite setResHeaders_overlay, lookup_union, Hv.
    destruct (setResHeaders stringify req ∅ result !! field); simpl; eauto.
  - rewrite (setResHeaders_overlay (setResHeaders stringify req res result)).
    rewrite (setResHeaders_overlay res).
    rewrite (assoc (∪)). now rewrite (idemp (∪)).
Qed.

End Overlay.

(** *** Page links *)

Lemma object_set_twice (k : string) (v w : JsValue) (obj : list (string * JsValue)) :
  object_set k w (object_set k v obj) = object_set k w obj.
Proof.
  induction obj as [|[k' v'] rest IH]; simpl.
  - now rewrite String.eqb_refl.
  - destruct (String.eqb k k') eqn:Heq; simpl.
    + now rewrite String.eqb_refl.
    + now rewrite Heq, IH.
Qed.

Lemma object_set_keys (k : string) (v : JsValue) (obj : list (string * JsValue)) :
  (object_set k v obj).*1 =
  if bool_decide (k ∈ obj.*1) then obj.*1 else (obj.*1 ++ [k])%list.
Proof.
  induction obj as [|[k' v'] rest IH]; [reflexivity|]. cbn [object_set].
  destruct (String.eqb_spec k k') as [->|Hne]; rewrite !fmap_cons; cbn [fst].
  - rewrite bool_decide_eq_true_2; [reflexivity|]. apply elem_of_cons. now left.
  - rewrite IH. destruct (bool_decide (k ∈ rest.*1)) eqn:Hin.
    + apply bool_decide_eq_true_1 in Hin.
      rewrite bool_decide_eq_true_2; [reflexivity|]. apply elem_of_cons. now right.
    + apply bool_decide_eq_false_1 in Hin.
      rewrite bool_decide_eq_false_2; [reflexivity|].
      intros H. apply elem_of_cons in H. tauto.
Qed.

Lemma object_set_NoDup (k : string) (v : JsValue) (obj : list (string * JsValue)) :
  NoDup obj.*1 -> NoDup (object_set k v obj).*1.
Proof.
  intros Hnodup. rewrite object_set_keys.
  destruct (bool_decide (k ∈ obj.*1)) eqn:Hin; [assumption|].
  apply bool_decide_eq_false_1 in Hin.
  apply NoDup_app. repeat split; [assumption| |apply NoDup_singleton].
  intros x Hx Hk. apply list_elem_of_singleton in Hk. now subst.
Qed.

(** The link to a page does not depend on the page the request asked
    for: a request that differs only in the value of its [page] parameter
    gets the same links.  The query of a link has the keys of the request
    in their order, followed by [page] when the request had none, and no
    key twice. *)
Theorem getPageLink_any_current_page
  (stringify : list (string * JsValue) -> string)
  (req : Request) (current : JsValue) (p : Z) :
  NoDup (query req).*1 ->
  let req' :=
    {| protocol := protocol req; host := host req; baseUrl := baseUrl req;
       path := path req; query := object_set "page" current (query req) |} in
  getPageLink stringify req' p = getPageLink stringify req p /\
  (page_query req p).*1 =
    (if bool_decide ("page" ∈ (query req).*1) then (query req).*1
     else ((query req).*1 ++ ["page"])%list) /\
  NoDup (page_query req p).*1.
Proof.
  intros Hnodup req'. unfold getPageLink.
  rewrite (page_query_object_set req p Hnodup).
  rewrite (page_query_object_set req' p); [|now apply object_set_NoDup].
  subst req'. simpl. rewrite object_set_twice.
  split; [reflexivity|]. split; [apply object_set_keys|now apply object_set_NoDup].
Qed.

(** The request for page 2 and the same request for page 4 link to page 3
    in the same way. *)
Lemma getPageLink_any_current_page_witness :
  getPageLink plain_stringify
    {| protocol := "https"; host := "api.topcoder-dev.com"; baseUrl := "/v5";
       path := "/members";
       query := [("page", JStr "4"); ("sort", JStr "asc")] |} 3 =
  getPageLink plain_stringify members_request 3.
Proof.
  refine (proj1 (getPageLink_any_current_page plain_stringify members_request
                   (JStr "4") 3 _)).
  exact (bool_decide_unpack (NoDup (query members_request).*1) I).
Defined.

End PaginationMore.

(** ** Wrapping the handlers of a controller *)

Module WrapFacts.
Import Js Async Wrap JsFacts.

(** Induction on an export, with the property at hand for every element
    of an array and every value of an object. *)
Lemma Exports_induction (P : Exports -> Prop) :
  (forall elems, Forall P elems -> P (XArray elems)) ->
  (forall fn, P (XAsyncFunction fn)) ->
  (forall fn, P (XFunction fn)) ->
  (forall props, Forall (fun kv => P kv.2) props -> P (XObject props)) ->
  forall obj, P obj.
Proof.
  intros Harray Hasync Hfunction Hobject.
  fix IH 1. intros [elems|fn|fn|props].
  - apply Harray. induction elems as [|elem rest IHrest]; constructor; auto.
  - apply Hasync.
  - apply Hfunction.
  - apply Hobject. induction props as [|[key value] rest IHrest]; constructor; auto.
Qed.

Lemma map_id_on {A} (f : A -> A) (l : list A) :
  Forall (fun x => f x = x) l -> List.map f l = l.
Proof. induction 1 as [|x rest Hx _ IH]; simpl; congruence. Qed.

Lemma list_sum_zero (l : list nat) : Forall (fun n => n = 0%nat) l -> list_sum l = 0%nat.
Proof. induction 1 as [|n rest Hn _ IH]; simpl; lia. Qed.

Lemma list_sum_zero_inv (l : list nat) : list_sum l = 0%nat -> Forall (fun n => n = 0%nat) l.
Proof.
  induction l as [|n rest IH]; simpl; intros H; constructor; [lia|apply IH; lia].
Qed.

(** After the pass no function is [async] any more. *)
Lemma autoWrapExpress_no_async (obj : Exports) :
  async_count (autoWrapExpress obj) = 0%nat.
Proof.
  induction obj as [elems IH|fn|fn|props IH] using Exports_induction; simpl;
    try reflexivity.
  - apply list_sum_zero. rewrite List.map_map. apply Forall_map. exact IH.
  - apply list_sum_zero. rewrite List.map_map. apply Forall_map.
    eapply Forall_impl; [exact IH|]. now intros [key value].
Qed.

(** The pass changes nothing in an export without [async] functions. *)
Lemma autoWrapExpress_plain (obj : Exports) :
  async_count obj = 0%nat -> autoWrapExpress obj = obj.
Proof.
  induction obj as [elems IH|fn|fn|props IH] using Exports_induction; simpl;
    intros Hcount; try reflexivity; try discriminate.
  - f_equal. apply map_id_on.
    apply list_sum_zero_inv in Hcount. rewrite Forall_map in Hcount.
    rewrite Forall_forall in IH, Hcount. apply Forall_forall.
    intros elem Hin. apply IH; [assumption|]. now apply Hcount.
  - f_equal. apply map_id_on.
    apply list_sum_zero_inv in Hcount. rewrite Forall_map in Hcount.
    rewrite Forall_forall in IH, Hcount. apply Forall_forall.
    intros [key value] Hin. f_equal.
    apply (IH (key, value) Hin). exact (Hcount (key, value) Hin).
Qed.

Lemma autoWrapExpress_outline (obj : Exports) :
  outline (autoWrapExpress obj) = outline obj.
Proof.
  induction obj as [elems IH|fn|fn|props IH] using Exports_induction; simpl;
    try reflexivity.
  - f_equal. rewrite List.map_map. apply map_ext_Forall. exact IH.
  - f_equal. rewrite List.map_map. apply map_ext_Forall.
    eapply Forall_impl; [exact IH|]. intros [key value] H. simpl in *. now rewrite H.
Qed.

Lemma assoc_export_map (key : string) (props : list (string * Exports)) :
  assoc_export key
    (List.map (fun kv => let '(k, value) := kv in (k, autoWrapExpress value)) props) =
  option_map autoWrapExpress (assoc_export key props).
Proof.
  induction props as [|[k value] rest IH]; simpl; [reflexivity|].
  now destruct (String.eqb key k).
Qed.

(** The pass reaches every place of the export: what stands at the end
    of a path afterwards is what stood there before, wrapped. *)
Lemma export_at_autoWrapExpress (path : list Step) (obj : Exports) :
  export_at path (autoWrapExpress obj) = option_map autoWrapExpress (export_at path obj).
Proof.
  revert obj. induction path as [|[i|key] rest IH]; intros obj; [reflexivity| |].
  - destruct obj as [elems|fn|fn|props]; simpl; try reflexivity.
    rewrite nth_error_map. destruct (nth_error elems i); simpl; [apply IH|reflexivity].
  - destruct obj as [elems|fn|fn|props]; simpl; try reflexivity.
    rewrite assoc_export_map.
    destruct (assoc_export key props); simpl; [apply IH|reflexivity].
Qed.

(** [autoWrapExpress] wraps every [async] function of the exports and
    changes nothing else.  Wherever an [async] function stands, however
    deep, its wrapper stands afterwards; wherever another function
    stands, that same function stands afterwards; and every function
    that stands anywhere afterwards is one of these two.  So no function
    is [async] afterwards, the arrays and the keys of the objects are as
    before, and a second pass changes nothing, the wrapper being a plain
    function. *)
Theorem autoWrapExpress_once (obj : Exports) :
  (forall path fn,
     export_at path obj = Some (XAsyncFunction fn) ->
     export_at path (autoWrapExpress obj) = Some (XFunction (wrapExpress fn))) /\
  (forall path fn,
     export_at path obj = Some (XFunction fn) ->
     export_at path (autoWrapExpress obj) = Some (XFunction fn)) /\
  (forall path fn,
     export_at path (autoWrapExpress obj) = Some (XFunction fn) ->
     export_at path obj = Some (XFunction fn) \/
     exists handler, export_at path obj = Some (XAsyncFunction handler) /\
                     fn = wrapExpress handler) /\
  (forall path, export_at path (autoWrapExpress obj) = None <->
                export_at path obj = None) /\
  async_count (autoWrapExpress obj) = 0%nat /\
  outline (autoWrapExpress obj) = outline obj /\
  autoWrapExpress (autoWrapExpress obj) = autoWrapExpress obj.
Proof.
  split; [|split; [|split; [|split; [|split; [|split]]]]].
  - intros path fn Hat. now rewrite export_at_autoWrapExpress, Hat.
  - intros path fn Hat. now rewrite export_at_autoWrapExpress, Hat.
  - intros path fn. rewrite export_at_autoWrapExpress.
    destruct (export_at path obj) as [[elems|handler|plain|props]|]; simpl;
      try discriminate.
    + intros [= <-]. right. eauto.
    + intros [= <-]. now left.
  - intros path. rewrite export_at_autoWrapExpress.
    destruct (export_at path obj); simpl; split; congruence.
  - apply autoWrapExpress_no_async.
  - apply autoWrapExpress_outline.
  - apply autoWrapExpress_plain, autoWrapExpress_no_async.
Qed.

(** Exports without an [async] function come back as they are. *)
Theorem autoWrapExpress_keeps_plain (obj : Exports) :
  async_count obj = 0%nat -> autoWrapExpress obj = obj.
Proof. apply autoWrapExpress_plain. Qed.

(** Wherever an [async] handler stands in the exports, however deep,
    the function standing there after [autoWrapExpress] hands the reason
    of a rejected promise to [next], once and after the calls the handler
    made itself, and adds no call when the promise resolves. *)
Theorem autoWrapExpress_forwards_rejections (obj : Exports) (path : list Step)
  (fn : AsyncHandler) (req : JsValue) :
  export_at path obj = Some (XAsyncFunction fn) ->
  exists wrapped,
    export_at path (autoWrapExpress obj) = Some (XFunction wrapped) /\
    match fn req with
    | (calls, Reject reason) => wrapped req = (calls ++ [Some reason])%list
    | (calls, _) => wrapped req = calls
    end.
Proof.
  intros Hat. exists (wrapExpress fn).
  rewrite export_at_autoWrapExpress, Hat. split; [reflexivity|].
  unfold wrapExpress. destruct (fn req) as [calls [v|reason|exn]]; reflexivity.
Qed.

(** A controller with a synchronous health check and an [async] search
    that fails with [NotFoundError]. *)
Lemma autoWrapExpress_forwards_rejections_witness :
  let controller :=
    XObject [ ("checkHealth", XFunction (fun _ => []));
              ("searchMembers",
               XArray [ XFunction (fun _ => [None]);
                        XAsyncFunction
                          (fun _ => ([], Reject (NotFoundError "no member"))) ]) ] in
  exists wrapped,
    export_at [AtKey "searchMembers"; AtIndex 1] (autoWrapExpress controller)
    = Some (XFunction wrapped) /\
    wrapped JNull = [Some (NotFoundError "no member")].
Proof.
  intros controller.
  exact (autoWrapExpress_forwards_rejections controller
           [AtKey "searchMembers"; AtIndex 1]
           (fun _ => ([], Reject (NotFoundError "no member"))) JNull eq_refl).
Defined.

Lemma autoWrapExpress_keeps_plain_witness :
  autoWrapExpress (XObject [ ("checkHealth", XFunction (fun _ => [])) ]) =
  XObject [ ("checkHealth", XFunction (fun _ => [])) ].
Proof.
  apply autoWrapExpress_keeps_plain. reflexivity.
Defined.

End WrapFacts.

(** ** The default configuration *)

Module ConfigFacts.
Import Js Pagination Util Config JsFacts UtilFacts ParseMore.

Lemma or_else_truthy (a b : JsValue) : truthy b = true -> truthy (or_else a b) = true.
Proof. unfold or_else. now destruct (truthy a) eqn:Ha. Qed.




(** [IS_LOCAL_DB] is a boolean, and false only when the variable is set
    to something other than the empty string and the exact word [true]:
    [TRUE], [1] and [yes] all switch the local database off. *)
Theorem is_local_db (Number : string -> JsValue) (env : Env) :
  exists local,
    config_get (default_config Number env) "AMAZON.IS_LOCAL_DB" = Returns (JBool local) /\
    (local = false <->
     exists s, env !! "IS_LOCAL_DB" = Some s /\ s <> "" /\ s <> "true").
Proof.
  unfold config_get.
  change (at_path (default_config Number env) (split_on "."%char "AMAZON.IS_LOCAL_DB"))
    with (match env !! "IS_LOCAL_DB" with
          | Some s => if truthy (JStr s) then JBool (String.eqb s "true")
                      else JBool true
          | None => JBool true
          end).
  destruct (env !! "IS_LOCAL_DB") as [s|] eqn:Hs.
  - destruct (truthy (JStr s)) eqn:Hset.
    + apply truthy_JStr in Hset. eexists. split; [reflexivity|].
      rewrite String_eqb_false. split.
      * intros Hne. exists s. auto.
      * intros (s' & [= <-] & _ & Hne). exact Hne.
    + exists true. split; [reflexivity|]. split; [discriminate|].
      intros (s' & [= <-] & Hne & _). apply truthy_JStr in Hne. congruence.
  - exists true. split; [reflexivity|]. split; [discriminate|].
    intros (s' & Hs' & _). discriminate.
Qed.

(** [ID_FIELDS] is always an array of at least one string: the two
    default fields when the variable is not set or empty, and otherwise
    the variable cut at its commas and nowhere else: no field holds a
    comma, and joining the fields with commas gives the variable back.
    The fields are not trimmed, and an empty one is kept. *)
Theorem id_fields (Number : string -> JsValue) (env : Env) :
  exists fields,
    config_get (default_config Number env) "ID_FIELDS" = Returns (strings fields) /\
    fields <> [] /\
    match env !! "ID_FIELDS" with
    | Some s => if String.eqb s "" then fields = ["email"; "addresses"]
                else String.concat "," fields = s /\
                     Forall (fun field => ~ In ","%char (list_ascii_of_string field))
                            fields
    | None => fields = ["email"; "addresses"]
    end.
Proof.
  unfold config_get.
  change (at_path (default_config Number env) (split_on "."%char "ID_FIELDS"))
    with (match env !! "ID_FIELDS" with
          | Some s => if truthy (JStr s) then split_list s
                      else strings ["email"; "addresses"]
          | None => strings ["email"; "addresses"]
          end).
  destruct (env !! "ID_FIELDS") as [s|] eqn:Hs.
  - simpl truthy. destruct (String.eqb s "") eqn:Hempty; simpl.
    + exists ["email"; "addresses"]. repeat split. discriminate.
    + exists (split_comma s). unfold split_list. split; [reflexivity|].
      rewrite split_comma_split_on. split; [apply split_on_nonempty|].
      split; [apply split_on_join|apply split_on_pieces].
  - exists ["email"; "addresses"]. repeat split. discriminate.
Qed.

End ConfigFacts.

(** ** Service clients *)

Module ClientsFacts.
Import Js Pagination Util Config Clients JsFacts PaginationFacts ConfigFacts.

(** [config.get] on a setting whose value is truthy. *)
Lemma config_get_defined (config : list (string * JsValue)) (path : string)
  (value : JsValue) :
  at_path config (split_on "."%char path) = value -> truthy value = true ->
  config_get config path = Returns value.
Proof.
  intros <- Hvalue. unfold config_get.
  now destruct (at_path config (split_on "."%char path)).
Qed.

(** *** Where a word stands in a string *)

Lemma strip_prefix_Some (p s after : string) :
  strip_prefix p s = Some after <-> s = p +:+ after.
Proof.
  revert s. induction p as [|a p IH]; intros s; simpl.
  - split; [now intros [= ->]|now intros ->].
  - destruct s as [|b s]; [split; discriminate|].
    rewrite append_cons. destruct (Ascii.eqb_spec a b) as [->|Hne].
    + rewrite IH. split; [now intros ->|now intros [= ->]].
    + split; [discriminate|]. intros [= -> _]. contradiction.
Qed.

Lemma find_split_Some (pat s before after : string) :
  find_split pat s = Some (before, after) -> s = before +:+ pat +:+ after.
Proof.
  revert before. induction s as [|c rest IH]; intros before; simpl.
  - destruct (strip_prefix pat "") as [a|] eqn:Hp; [|discriminate].
    intros [= <- <-]. now apply strip_prefix_Some in Hp.
  - destruct (strip_prefix pat (String c rest)) as [a|] eqn:Hp.
    + intros [= <- <-]. now apply strip_prefix_Some in Hp.
    + destruct (find_split pat rest) as [[b a]|]; [|discriminate].
      intros [= <- <-]. rewrite append_cons. f_equal. now apply IH.
Qed.

Lemma find_split_None (pat s : string) :
  find_split pat s = None -> forall before after, s <> before +:+ pat +:+ after.
Proof.
  induction s as [|c rest IH]; simpl.
  - destruct (strip_prefix pat "") as [a|] eqn:Hp; [discriminate|].
    intros _ [|b before] after Heq; [|discriminate Heq].
    change ("" = pat +:+ after) in Heq.
    apply strip_prefix_Some in Heq. congruence.
  - destruct (strip_prefix pat (String c rest)) as [a|] eqn:Hp; [discriminate|].
    destruct (find_split pat rest) as [[b a]|]; [discriminate|].
    intros _ [|b before] after Heq.
    + change (String c rest = pat +:+ after) in Heq.
      apply strip_prefix_Some in Heq. congruence.
    + rewrite append_cons in Heq. injection Heq as _ Heq.
      now apply (IH eq_refl before after).
Qed.

(** The host test succeeds exactly on the hosts whose name holds the
    word [amazonaws]. *)
Lemma is_aws_host_true (host : JsValue) :
  is_aws_host host = true <->
  exists before after, to_string host = before +:+ "amazonaws" +:+ after.
Proof.
  unfold is_aws_host.
  destruct (find_split "amazonaws" (to_string host)) as [[b a]|] eqn:Hfind.
  - split; [|reflexivity]. intros _. exists b, a. now apply find_split_Some.
  - split; [discriminate|]. intros (b & a & Heq).
    exfalso. exact (find_split_None _ _ Hfind b a Heq).
Qed.

(** *** The search client *)

(** [getESClient] builds its client once: a call that returns leaves the
    client it returned in the module variable, and every later call
    returns that same client without reading the configuration or
    calling the library, whatever they have become, and without
    failing. *)
Theorem getESClient_memoized (EsClient : Type) (Client : EsOptions -> Result EsClient)
  (http_aws_es : option Raised) (config : list (string * JsValue))
  (esClient esClient' : option EsClient) (client : EsClient) :
  getESClient EsClient Client http_aws_es config esClient = Returns (client, esClient') ->
  esClient' = Some client /\
  forall Client' http_aws_es' config',
    getESClient EsClient Client' http_aws_es' config' esClient'
    = Returns (client, esClient').
Proof.
  unfold getESClient. intros Hcall.
  assert (Hcached : esClient' = Some client).
  { destruct esClient as [cached|]; [now injection Hcall as <- <-|].
    destruct (config_get config "ES.HOST") as [esHost|]; [|discriminate].
    destruct (is_aws_host esHost);
      destruct (config_get config "ES.API_VERSION") as [version|]; try discriminate.
    - destruct http_aws_es; [discriminate|].
      destruct (config_get config "AMAZON.AWS_REGION") as [region|]; [|discriminate].
      destruct (Client _); [|discriminate]. now injection Hcall as <- <-.
    - destruct (Client _); [|discriminate]. now injection Hcall as <- <-. }
  split; [assumption|]. intros Client' http_aws_es' config'. now rewrite Hcached.
Qed.

(** With the default configuration the settings [getESClient] reads are
    always defined, whatever the environment holds, so the call fails
    only when the library does, and then with the error of the library.
    The client is asked for the host [ES_HOST], or [localhost:9200] when
    that is not set or empty, and for the managed service, with
    [AWS_REGION] or its default as the region, exactly when the host
    holds the word [amazonaws]; the connection class is loaded in that
    case only. *)
Theorem getESClient_with_defaults (EsClient : Type)
  (Client : EsOptions -> Result EsClient) (http_aws_es : option Raised)
  (Number : string -> JsValue) (env : Env) :
  exists options,
    es_hosts options = or_else (env_value env "ES_HOST") (JStr "localhost:9200") /\
    es_apiVersion options = or_else (env_value env "ES_API_VERSION") (JStr "6.8") /\
    (es_amazonES options =
       Some (or_else (env_value env "AWS_REGION") (JStr "ap-northeast-1")) \/
     es_amazonES options = None) /\
    (is_Some (es_amazonES options) <->
     exists before after,
       to_string (es_hosts options) = before +:+ "amazonaws" +:+ after) /\
    getESClient EsClient Client http_aws_es (default_config Number env) None =
    match es_amazonES options, http_aws_es with
    | Some _, Some exn => Raises exn
    | _, _ =>
        match Client options with
        | Returns client => Returns (client, Some client)
        | Raises exn => Raises exn
        end
    end.
Proof.
  unfold getESClient.
  rewrite (config_get_defined _ "ES.HOST"
             (or_else (env_value env "ES_HOST") (JStr "localhost:9200")));
    [|reflexivity|apply or_else_truthy; reflexivity].
  rewrite (config_get_defined _ "ES.API_VERSION"
             (or_else (env_value env "ES_API_VERSION") (JStr "6.8")));
    [|reflexivity|apply or_else_truthy; reflexivity].
  rewrite (config_get_defined _ "AMAZON.AWS_REGION"
             (or_else (env_value env "AWS_REGION") (JStr "ap-northeast-1")));
    [|reflexivity|apply or_else_truthy; reflexivity].
  pose proof (is_aws_host_true
                (or_else (env_value env "ES_HOST") (JStr "localhost:9200"))) as Haws.
  destruct (is_aws_host (or_else (env_value env "ES_HOST") (JStr "localhost:9200"))).
  - eexists {| es_amazonES := Some _ |}. cbn [es_hosts es_apiVersion es_amazonES].
    split; [reflexivity|]. split; [reflexivity|]. split; [now left|].
    split; [split; [intros _; now apply Haws|eauto]|].
    destruct http_aws_es; [reflexivity|]. now destruct (Client _).
  - eexists {| es_amazonES := None |}. cbn [es_hosts es_apiVersion es_amazonES].
    split; [reflexivity|]. split; [reflexivity|]. split; [now right|].
    split; [split; [intros [region Hregion]; discriminate|]|].
    + intros H. apply Haws in H. discriminate.
    + now destruct (Client _).
Qed.

(** A client built once is still returned when the configuration has
    lost all its settings and the library refuses every option. *)
Lemma getESClient_memoized_witness :
  let client := {| es_apiVersion := JStr "6.8"; es_hosts := JStr "localhost:9200";
                   es_amazonES := None |} in
  getESClient EsOptions (fun _ => Raises TypeErrorRaised) (Some TypeErrorRaised) []
    (Some client)
  = Returns (client, Some client).
Proof.
  intros client.
  exact (proj2 (getESClient_memoized EsOptions Returns None
                  (default_config (fun _ => JNum 0) ∅) None (Some client) client eq_refl)
               (fun _ => Raises TypeErrorRaised) (Some TypeErrorRaised) []).
Defined.

(** *** The configuration of the SDK *)

(** With the default configuration [awsConfig] always carries explicit
    credentials, the two of the environment or else the two fake ones:
    the defaults are not empty, so the test that guards them never
    fails. *)
Theorem awsConfig_with_defaults (Number : string -> JsValue) (env : Env) :
  exists settings,
    awsConfig (default_config Number env) = Returns settings /\
    settings.*1 = ["s3"; "region"; "accessKeyId"; "secretAccessKey"] /\
    assoc_get "accessKeyId" settings =
      Some (or_else (env_value env "AWS_ACCESS_KEY_ID") (JStr "FAKE_ACCESS_KEY")) /\
    assoc_get "secretAccessKey" settings =
      Some (or_else (env_value env "AWS_SECRET_ACCESS_KEY")
              (JStr "FAKE_SECRET_ACCESS_KEY")) /\
    Forall (fun kv => truthy kv.2 = true) settings.
Proof.
  unfold awsConfig.
  set (key := or_else (env_value env "AWS_ACCESS_KEY_ID") (JStr "FAKE_ACCESS_KEY")).
  set (secret := or_else (env_value env "AWS_SECRET_ACCESS_KEY")
                   (JStr "FAKE_SECRET_ACCESS_KEY")).
  assert (Hkey : truthy key = true) by (apply or_else_truthy; reflexivity).
  assert (Hsecret : truthy secret = true) by (apply or_else_truthy; reflexivity).
  cbv -[or_else env_value truthy lookup].
  fold key secret. rewrite Hkey, Hsecret.
  eexists. split; [reflexivity|]. repeat split; try reflexivity.
  repeat constructor; simpl; try assumption; apply or_else_truthy; reflexivity.
Qed.


(** *** The bus client *)

Lemma pick_keys (object : list (string * JsValue)) (keys : list string) :
  Forall (fun kv => In kv.1 keys /\ assoc_get kv.1 object = Some kv.2)
         (pick object keys).
Proof.
  induction keys as [|key rest IH]; simpl; [constructor|].
  destruct (assoc_get key object) as [value|] eqn:Hkey; simpl.
  - constructor; [simpl; auto|].
    eapply Forall_impl; [exact IH|]. intros kv [Hin Hget]. auto.
  - eapply Forall_impl; [exact IH|]. intros kv [Hin Hget]. auto.
Qed.

Lemma pick_agree (object object' : list (string * JsValue)) (keys : list string) :
  (forall key, In key keys -> assoc_get key object = assoc_get key object') ->
  pick object keys = pick object' keys.
Proof.
  induction keys as [|key rest IH]; intros Hagree; simpl; [reflexivity|].
  rewrite (Hagree key) by now left. rewrite IH; [reflexivity|].
  intros k Hk. apply Hagree. now right.
Qed.

Section BusClient.

Variable BusClient : Type.
Variable busApi : list (string * JsValue) -> BusClient.

(** [getBusApiClient] builds its client once: each call leaves the client
    it returns in the module variable, and every later call returns that
    same client, whatever the configuration has become. *)
Theorem getBusApiClient_memoized (config : list (string * JsValue))
  (busApiClient : option BusClient) :
  let '(client, busApiClient') := getBusApiClient BusClient busApi config busApiClient in
  busApiClient' = Some client /\
  (forall cached, busApiClient = Some cached -> client = cached) /\
  forall config',
    getBusApiClient BusClient busApi config' busApiClient' = (client, busApiClient').
Proof.
  unfold getBusApiClient. destruct busApiClient as [cached|]; simpl.
  - repeat split. now intros c [= ->].
  - repeat split. discriminate.
Qed.

(** The bus client is built from the eight bus settings and from nothing
    else: the object handed to the constructor holds only those keys, each
    with the value the configuration gives it, so two configurations that
    agree on the eight settings give the same client and no other setting,
    [AUTH_SECRET] or the credentials of the cloud account, reaches the bus
    library. *)
Theorem getBusApiClient_settings (config config' : list (string * JsValue)) :
  (forall key, In key BUS_SETTINGS -> assoc_get key config = assoc_get key config') ->
  getBusApiClient BusClient busApi config None =
  getBusApiClient BusClient busApi config' None /\
  (getBusApiClient BusClient busApi config None).1 = busApi (pick config BUS_SETTINGS) /\
  Forall (fun kv => In kv.1 BUS_SETTINGS /\ assoc_get kv.1 config = Some kv.2)
         (pick config BUS_SETTINGS).
Proof.
  intros Hagree. unfold getBusApiClient.
  rewrite (pick_agree config config' BUS_SETTINGS Hagree).
  split; [reflexivity|]. split; [reflexivity|].
  rewrite <- (pick_agree config config' BUS_SETTINGS Hagree). apply pick_keys.
Qed.

End BusClient.

(** Two environments that differ in [AUTH_SECRET] only: the bus client is
    made from the same settings. *)
Lemma getBusApiClient_settings_witness :
  getBusApiClient _ (fun settings => settings)
    (default_config (fun _ => JNum 0) {[ "AUTH_SECRET" := "s3cret" ]}) None =
  getBusApiClient _ (fun settings => settings)
    (default_config (fun _ => JNum 0) ∅) None.
Proof.
  refine (proj1 (getBusApiClient_settings _ (fun settings => settings)
                   (default_config (fun _ => JNum 0) {[ "AUTH_SECRET" := "s3cret" ]})
                   (default_config (fun _ => JNum 0) ∅) _)).
  intros key Hkey. simpl in Hkey.
  repeat (destruct Hkey as [<-|Hkey]; [reflexivity|]). contradiction.
Defined.

(** *** Photo upload *)

(** A replacement without a dollar sign stands for itself. *)
Lemma substitution_plain (matched before after replacement : string) :
  ~ In "$"%char (list_ascii_of_string replacement) ->
  substitution matched before after replacement = replacement.
Proof.
  induction replacement as [|c rest IH]; simpl; intros Hplain; [reflexivity|].
  destruct (Ascii.eqb_spec c "$"%char) as [->|Hc]; [tauto|].
  rewrite IH; [reflexivity|tauto].
Qed.

(** [uploadPhotoToS3] stores the photo under the drawn key, publicly
    readable, in the configured bucket, and on success answers with the
    URL template in which the first [<key>] is replaced by that key, so
    the URL names the object that was stored; a template without [<key>]
    is answered as it is, the same for every photo.  When the upload fails
    its error is the answer and no URL is made.  The key is taken to hold
    no dollar sign, as the identifiers drawn by [uuid] do. *)
Theorem uploadPhotoToS3_url (config amazon : list (string * JsValue))
  (template key : string) (upload : UploadParams -> option JsValue)
  (data : JsValue) (mimetype fileName : string) :
  member (JObj config) "AMAZON" = JObj amazon ->
  member (JObj config) "PHOTO_URL_TEMPLATE" = JStr template ->
  ~ In "$"%char (list_ascii_of_string key) ->
  uploadPhotoToS3 config key upload data mimetype fileName =
  match upload {| Bucket := member (JObj amazon) "PHOTO_S3_BUCKET"; Key := key;
                  Body := data; ContentType := mimetype; ACL := "public-read";
                  Metadata := [("fileName", JStr fileName)] |} with
  | Some err => UploadFailed err
  | None =>
      PhotoURL match find_split "<key>" template with
               | Some (before, after) => before +:+ key +:+ after
               | None => template
               end
  end.
Proof.
  intros Hamazon Htemplate Hkey. unfold uploadPhotoToS3.
  rewrite Hamazon, Htemplate. unfold replace.
  destruct (upload _); [reflexivity|].
  destruct (find_split "<key>" template) as [[before after]|]; [|reflexivity].
  now rewrite substitution_plain.
Qed.

(** With the default configuration and an upload that succeeds. *)
Lemma uploadPhotoToS3_url_witness :
  uploadPhotoToS3 (default_config (fun _ => JNum 0) ∅)
    "110ec58a-a0f2-4ac4-8393-c866d813b8d1" (fun _ => None)
    JNull "image/png" "me.png" =
  PhotoURL "https://s3.amazonaws.com/some-bucket/110ec58a-a0f2-4ac4-8393-c866d813b8d1".
Proof.
  refine (uploadPhotoToS3_url (default_config (fun _ => JNum 0) ∅) _ _
            "110ec58a-a0f2-4ac4-8393-c866d813b8d1" (fun _ => None)
            JNull "image/png" "me.png" eq_refl eq_refl _).
  vm_compute. intuition discriminate.
Defined.

End ClientsFacts.
